(** * ringbuffer: a fixed-capacity circular byte buffer

    Shallow embedding of [ringbuffer.go] and the properties of its
    operations.  Every method body runs under [r.mu], so a method is
    modelled as one atomic function from the buffer state to the state
    afterwards and the values returned; interleavings of method bodies
    are not modelled.  [int] is a 64-bit integer that wraps, slices are
    lists of bytes with the bounds checks of the run time, and a
    run-time panic is an explicit outcome. *)

From Stdlib Require Import ZArith List Lia Bool.
From Stdlib Require Import Strings.Byte.
From Stdlib Require Strings.String.
Import ListNotations.
Local Open Scope Z_scope.

(* ================================================================= *)
(** ** The Go run time: [int], panics, slices *)

Module Go.

(** Go's [int] on a 64-bit target: two's complement, wrapping silently. *)
Definition int_min : Z := - 2 ^ 63.
Definition int_max : Z := 2 ^ 63 - 1.
Definition wrap (z : Z) : Z := (z + 2 ^ 63) mod 2 ^ 64 - 2 ^ 63.
Definition add (a b : Z) : Z := wrap (a + b).
Definition sub (a b : Z) : Z := wrap (a - b).

(** The largest allocation the run time accepts on a 64-bit target
    ([maxAlloc] of runtime/malloc.go); [make] panics above it.  The
    proofs use only [maxAlloc <= 2 ^ 62]. *)
Definition maxAlloc : Z := 2 ^ 48.

Inductive panic : Type :=
| IndexOutOfRange
| SliceBoundsOutOfRange
| DivideByZero
| MakeLenOutOfRange.

Inductive result (A : Type) : Type :=
| Ok (a : A)
| Panic (e : panic).
Arguments Ok {A} a.
Arguments Panic {A} e.

Definition bind {A B} (m : result A) (k : A -> result B) : result B :=
  match m with
  | Ok a => k a
  | Panic e => Panic e
  end.

Definition len (l : list byte) : Z := Z.of_nat (List.length l).
Definition takeZ (n : Z) (l : list byte) : list byte := firstn (Z.to_nat n) l.
Definition dropZ (n : Z) (l : list byte) : list byte := skipn (Z.to_nat n) l.
Definition nthZ (l : list byte) (i : Z) : byte := nth (Z.to_nat i) l x00.

(** [make([]byte, n)]: zeroed storage.  The run time can also stop
    the whole process for lack of memory at a length below [maxAlloc];
    that is not modelled, so what is proved of a buffer assumes that
    the [make] behind it returned. *)
Definition make (n : Z) : result (list byte) :=
  if (n <? 0) || (maxAlloc <? n) then Panic MakeLenOutOfRange
  else Ok (repeat x00 (Z.to_nat n)).

(** [l[lo:hi]] on a slice whose capacity equals its length. *)
Definition slice (l : list byte) (lo hi : Z) : result (list byte) :=
  if (0 <=? lo) && (lo <=? hi) && (hi <=? len l)
  then Ok (takeZ (hi - lo) (dropZ lo l))
  else Panic SliceBoundsOutOfRange.

(** [l[lo:]] and [l[:hi]] *)
Definition slice_from (l : list byte) (lo : Z) : result (list byte) :=
  slice l lo (len l).
Definition slice_to (l : list byte) (hi : Z) : result (list byte) :=
  slice l 0 hi.

(** [l[i]] *)
Definition index (l : list byte) (i : Z) : result byte :=
  if (0 <=? i) && (i <? len l) then Ok (nthZ l i)
  else Panic IndexOutOfRange.

(** The built-in [copy(dst, src)]: the contents of [dst] afterwards.
    It copies [min(len(dst), len(src))] elements and never panics. *)
Definition copy (dst src : list byte) : list byte :=
  let n := Z.min (len dst) (len src) in
  takeZ n src ++ dropZ n dst.

(** [copy(l[off:], src)]: the contents of the whole of [l] afterwards. *)
Definition copy_at (l : list byte) (off : Z) (src : list byte)
  : result (list byte) :=
  bind (slice_from l off) (fun dst => Ok (takeZ off l ++ copy dst src)).

(** [l[i] = c] *)
Definition store (l : list byte) (i : Z) (c : byte) : result (list byte) :=
  if (0 <=? i) && (i <? len l)
  then Ok (takeZ i l ++ c :: dropZ (i + 1) l)
  else Panic IndexOutOfRange.

(** [a % b] on [int]: truncated remainder, panics on a zero divisor. *)
Definition rem (a b : Z) : result Z :=
  if b =? 0 then Panic DivideByZero else Ok (Z.rem a b).

(** A string value is a two-word header: a pointer to the immutable
    bytes (modelled by the bytes it points to) and a length.  A slice
    value is a three-word header. *)
Record StringHeader : Type := mkString { str_data : list byte; str_len : Z }.
Record SliceHeader : Type :=
  mkSlice { sl_data : list byte; sl_len : Z; sl_cap : Z }.

(** The bytes a slice value denotes, and the conversion [[]byte(s)]. *)
Definition slice_bytes (h : SliceHeader) : list byte :=
  takeZ (sl_len h) (sl_data h).
Definition string_bytes (s : StringHeader) : list byte :=
  takeZ (str_len s) (str_data s).

(** A string literal as the run time lays it out. *)
Definition of_string (s : String.string) : StringHeader :=
  let bs := String.list_byte_of_string s in mkString bs (len bs).

End Go.

Import Go.

Notation "x <- m ;; k" := (Go.bind m (fun x => k))
  (at level 61, m at next level, right associativity).
Notation "' p <- m ;; k" := (Go.bind m (fun p => k))
  (at level 61, p pattern, m at next level, right associativity).

(* ================================================================= *)
(** ** The buffer *)

Inductive error : Type := ErrFull | ErrEmpty.

(** [type RingBuffer struct]; the mutex has no sequential content. *)
Record RingBuffer : Type := mkRingBuffer {
  buf : list byte;
  size : Z;
  r : Z;       (* next position to read *)
  w : Z;       (* next position to write *)
  isFull : bool
}.

Definition New (sz : Z) : result RingBuffer :=
  b <- make sz ;;
  Ok (mkRingBuffer b sz 0 0 false).

(** [Read(p)]: the buffer afterwards, the contents of [p] afterwards,
    and [(n, err)]. *)
Definition Read (rb : RingBuffer) (p : list byte)
  : result (RingBuffer * list byte * (Z * option error)) :=
  if len p =? 0 then Ok (rb, p, (0, None))
  else if (w rb =? r rb) && negb (isFull rb) then Ok (rb, p, (0, Some ErrEmpty))
  else if w rb >? r rb then
    let n := sub (w rb) (r rb) in
    let n := if n >? len p then len p else n in
    src <- slice (buf rb) (r rb) (add (r rb) n) ;;
    let p1 := copy p src in
    r1 <- rem (add (r rb) n) (size rb) ;;
    Ok (mkRingBuffer (buf rb) (size rb) r1 (w rb) (isFull rb), p1, (n, None))
  else
    let n := add (sub (size rb) (r rb)) (w rb) in
    let n := if n >? len p then len p else n in
    p2 <- (if add (r rb) n <=? size rb then
             src <- slice (buf rb) (r rb) (add (r rb) n) ;;
             Ok (copy p src)
           else
             let c1 := sub (size rb) (r rb) in
             src1 <- slice (buf rb) (r rb) (size rb) ;;
             let p1 := copy p src1 in
             let c2 := sub n c1 in
             src2 <- slice (buf rb) 0 c2 ;;
             copy_at p1 c1 src2) ;;
    r1 <- rem (add (r rb) n) (size rb) ;;
    Ok (mkRingBuffer (buf rb) (size rb) r1 (w rb) false, p2, (n, None)).

Definition ReadByte (rb : RingBuffer)
  : result (RingBuffer * (byte * option error)) :=
  if (w rb =? r rb) && negb (isFull rb) then Ok (rb, (x00, Some ErrEmpty))
  else
    b <- index (buf rb) (r rb) ;;
    let r1 := add (r rb) 1 in
    let r2 := if r1 =? size rb then 0 else r1 in
    Ok (mkRingBuffer (buf rb) (size rb) r2 (w rb) false, (b, None)).

Definition Write (rb : RingBuffer) (p : list byte)
  : result (RingBuffer * (Z * option error)) :=
  if len p =? 0 then Ok (rb, (0, None))
  else if isFull rb then Ok (rb, (0, Some ErrFull))
  else
    let avail := if w rb >=? r rb then add (sub (size rb) (w rb)) (r rb)
                 else sub (r rb) (w rb) in
    '(err, p) <- (if len p >? avail
                  then p' <- slice_to p avail ;; Ok (Some ErrFull, p')
                  else Ok (None, p)) ;;
    let n := len p in
    '(buf1, w1) <- (if w rb >=? r rb then
                      let c1 := sub (size rb) (w rb) in
                      if c1 >=? n then
                        b1 <- copy_at (buf rb) (w rb) p ;;
                        Ok (b1, add (w rb) n)
                      else
                        p1 <- slice_to p c1 ;;
                        b1 <- copy_at (buf rb) (w rb) p1 ;;
                        let c2 := sub n c1 in
                        p2 <- slice_from p c1 ;;
                        b2 <- copy_at b1 0 p2 ;;
                        Ok (b2, c2)
                    else
                      b1 <- copy_at (buf rb) (w rb) p ;;
                      Ok (b1, add (w rb) n)) ;;
    let w2 := if w1 =? size rb then 0 else w1 in
    let full := if w2 =? r rb then true else isFull rb in
    Ok (mkRingBuffer buf1 (size rb) (r rb) w2 full, (n, err)).

Definition WriteByte (rb : RingBuffer) (c : byte)
  : result (RingBuffer * option error) :=
  if (w rb =? r rb) && isFull rb then Ok (rb, Some ErrFull)
  else
    buf1 <- store (buf rb) (w rb) c ;;
    let w1 := add (w rb) 1 in
    let w2 := if w1 =? size rb then 0 else w1 in
    let full := if w2 =? r rb then true else isFull rb in
    Ok (mkRingBuffer buf1 (size rb) (r rb) w2 full, None).

Definition Length (rb : RingBuffer) : Z :=
  if w rb =? r rb then
    if isFull rb then size rb else 0
  else if w rb >? r rb then sub (w rb) (r rb)
  else add (sub (size rb) (r rb)) (w rb).

Definition Capacity (rb : RingBuffer) : Z := size rb.

Definition Free (rb : RingBuffer) : Z :=
  if w rb =? r rb then
    if isFull rb then 0 else size rb
  else if w rb <? r rb then sub (r rb) (w rb)
  else add (sub (size rb) (w rb)) (r rb).

(** [WriteString]: the string header is read as two words, a slice
    header is built from them with the length as capacity, and the
    slice goes to [Write]. *)
Definition WriteString (rb : RingBuffer) (s : StringHeader)
  : result (RingBuffer * (Z * option error)) :=
  let x := (str_data s, str_len s) in
  let h := (fst x, snd x, snd x) in
  let b := mkSlice (fst (fst h)) (snd (fst h)) (snd h) in
  Write rb (slice_bytes b).

(** [Bytes()]; a nil slice and an empty one are both [[]]. *)
Definition Bytes (rb : RingBuffer) : result (list byte) :=
  if w rb =? r rb then
    if isFull rb then
      b0 <- make (size rb) ;;
      s1 <- slice_from (buf rb) (r rb) ;;
      let b1 := copy b0 s1 in
      s2 <- slice_to (buf rb) (w rb) ;;
      copy_at b1 (sub (size rb) (r rb)) s2
    else Ok []
  else if w rb >? r rb then
    b0 <- make (sub (w rb) (r rb)) ;;
    s1 <- slice (buf rb) (r rb) (w rb) ;;
    Ok (copy b0 s1)
  else
    let n := add (sub (size rb) (r rb)) (w rb) in
    b0 <- make n ;;
    if add (r rb) n <? size rb then
      s1 <- slice (buf rb) (r rb) (add (r rb) n) ;;
      Ok (copy b0 s1)
    else
      let c1 := sub (size rb) (r rb) in
      s1 <- slice (buf rb) (r rb) (size rb) ;;
      let b1 := copy b0 s1 in
      let c2 := sub n c1 in
      s2 <- slice (buf rb) 0 c2 ;;
      copy_at b1 c1 s2.

Definition IsFull (rb : RingBuffer) : bool := isFull rb.

Definition IsEmpty (rb : RingBuffer) : bool :=
  negb (isFull rb) && (w rb =? r rb).

Definition Reset (rb : RingBuffer) : RingBuffer :=
  mkRingBuffer (buf rb) (size rb) 0 0 false.

(* ================================================================= *)
(** ** Sequences of operations *)

(** One call of a public method, with its arguments. *)
Inductive op : Type :=
| OpRead (p : list byte)
| OpReadByte
| OpWrite (p : list byte)
| OpWriteByte (c : byte)
| OpWriteString (s : StringHeader)
| OpLength
| OpCapacity
| OpFree
| OpBytes
| OpIsFull
| OpIsEmpty
| OpReset.

(** The buffer after a call; the queries leave it as it is. *)
Definition exec (o : op) (rb : RingBuffer) : result RingBuffer :=
  match o with
  | OpRead p => x <- Read rb p ;; Ok (fst (fst x))
  | OpReadByte => x <- ReadByte rb ;; Ok (fst x)
  | OpWrite p => x <- Write rb p ;; Ok (fst x)
  | OpWriteByte c => x <- WriteByte rb c ;; Ok (fst x)
  | OpWriteString s => x <- WriteString rb s ;; Ok (fst x)
  | OpLength => let _ := Length rb in Ok rb
  | OpCapacity => let _ := Capacity rb in Ok rb
  | OpFree => let _ := Free rb in Ok rb
  | OpBytes => _ <- Bytes rb ;; Ok rb
  | OpIsFull => let _ := IsFull rb in Ok rb
  | OpIsEmpty => let _ := IsEmpty rb in Ok rb
  | OpReset => Ok (Reset rb)
  end.

Fixpoint run (ops : list op) (rb : RingBuffer) : result RingBuffer :=
  match ops with
  | [] => Ok rb
  | o :: ops' => rb' <- exec o rb ;; run ops' rb'
  end.

(** The state invariant of a buffer of positive capacity. *)
Record wf (rb : RingBuffer) : Prop := mkWf {
  wf_len : len (buf rb) = size rb;
  wf_size : 0 < size rb <= maxAlloc;
  wf_r : 0 <= r rb < size rb;
  wf_w : 0 <= w rb < size rb;
  wf_full : isFull rb = true -> r rb = w rb
}.

(** The state of a buffer of capacity zero. *)
Definition zero_cap (rb : RingBuffer) : Prop :=
  buf rb = [] /\ size rb = 0 /\ r rb = 0 /\ w rb = 0.

(** The states the code can be in: those of a buffer of positive
    capacity, and those of a buffer of capacity zero. *)
Definition buffer_state (rb : RingBuffer) : Prop := wf rb \/ zero_cap rb.

(** The three kinds of state of the data model. *)
Definition st_full (rb : RingBuffer) : Prop := isFull rb = true.
Definition st_empty (rb : RingBuffer) : Prop :=
  isFull rb = false /\ r rb = w rb.
Definition st_apart (rb : RingBuffer) : Prop := r rb <> w rb.

Definition exactly_one (P Q R : Prop) : Prop :=
  (P /\ ~ Q /\ ~ R) \/ (~ P /\ Q /\ ~ R) \/ (~ P /\ ~ Q /\ R).

(** The unread bytes as the data model describes them: as many as
    [Length()], the [i]-th one at position [readPos + i] modulo the
    capacity. *)
Definition unread (rb : RingBuffer) : list byte :=
  map (fun i => nthZ (buf rb) ((r rb + Z.of_nat i) mod size rb))
      (seq 0 (Z.to_nat (Length rb))).

(** [WriteString] as the specification words it: convert the text to
    its bytes and write them. *)
Definition WriteString_spec (rb : RingBuffer) (s : StringHeader)
  : result (RingBuffer * (Z * option error)) :=
  Write rb (string_bytes s).

(* ================================================================= *)
(** ** The buffer seen as a bounded queue *)

(** What a call does to the queue of unread bytes of a buffer of
    capacity [C]: reads drop from the front, writes append what fits,
    [Reset] empties it, the queries leave it. *)
Definition fifo_exec (C : Z) (o : op) (q : list byte) : list byte :=
  match o with
  | OpRead p => dropZ (Z.min (len p) (len q)) q
  | OpReadByte => dropZ 1 q
  | OpWrite p => q ++ takeZ (Z.min (len p) (C - len q)) p
  | OpWriteByte c => if C - len q =? 0 then q else q ++ [c]
  | OpWriteString s =>
      q ++ takeZ (Z.min (len (string_bytes s)) (C - len q)) (string_bytes s)
  | OpReset => []
  | OpLength | OpCapacity | OpFree | OpBytes | OpIsFull | OpIsEmpty => q
  end.

Fixpoint fifo_run (C : Z) (ops : list op) (q : list byte) : list byte :=
  match ops with
  | [] => q
  | o :: ops' => fifo_run C ops' (fifo_exec C o q)
  end.

(* ================================================================= *)
(** ** Slices as references: [Bytes] over a heap *)

(** The functions above take a slice for the bytes it holds, which
    cannot tell a slice over fresh storage from a view of [r.buf].  To
    state that, [New] and [Bytes] are read a second time over a heap of
    byte arrays, where a slice is a reference: the array, the offset in
    it, the length and the capacity. *)
Module Ref.

Definition heap : Type := list (list byte).

Record slice : Type := mkSlice { base : nat; off : Z; slen : Z; scap : Z }.

Definition array (h : heap) (a : nat) : list byte := nth a h [].

Definition set_array (h : heap) (a : nat) (bs : list byte) : heap :=
  firstn a h ++ bs :: skipn (S a) h.

(** The bytes a slice holds; the nil slice holds none. *)
Definition contents (h : heap) (s : slice) : list byte :=
  takeZ (slen s) (dropZ (off s) (array h (base s))).

Definition contents_opt (h : heap) (s : option slice) : list byte :=
  match s with
  | Some s0 => contents h s0
  | None => []
  end.

(** [make([]byte, n)]: a new array, at the first address not in use. *)
Definition alloc (h : heap) (n : Z) : result (heap * slice) :=
  bs <- make n ;;
  Ok (h ++ [bs], mkSlice (List.length h) 0 n n).

(** [s[lo:hi]]; [s[lo:]] is [s[lo:len(s)]] and [s[:hi]] is [s[0:hi]]. *)
Definition reslice (s : slice) (lo hi : Z) : result slice :=
  if (0 <=? lo) && (lo <=? hi) && (hi <=? scap s)
  then Ok (mkSlice (base s) (off s + lo) (hi - lo) (scap s - lo))
  else Panic SliceBoundsOutOfRange.

(** [copy(dst, src)]: the first [min(len(dst), len(src))] bytes of
    [src] are read and then stored at the start of [dst]. *)
Definition copy (h : heap) (dst src : slice) : heap :=
  let data := contents h src in
  let n := Z.min (slen dst) (slen src) in
  let a := array h (base dst) in
  set_array h (base dst)
    (takeZ (off dst) a ++ takeZ n data ++ dropZ (off dst + n) a).

Record RingBuffer : Type := mkRingBuffer {
  buf : slice;
  size : Z;
  r : Z;
  w : Z;
  isFull : bool
}.

Definition New (h : heap) (sz : Z) : result (heap * RingBuffer) :=
  '(h1, b) <- alloc h sz ;;
  Ok (h1, mkRingBuffer b sz 0 0 false).

(** [Bytes()]: the heap afterwards and the slice returned ([None] for
    nil). *)
Definition Bytes (h : heap) (rb : RingBuffer)
  : result (heap * option slice) :=
  if w rb =? r rb then
    if isFull rb then
      '(h1, b) <- alloc h (size rb) ;;
      s1 <- reslice (buf rb) (r rb) (slen (buf rb)) ;;
      let h2 := copy h1 b s1 in
      d2 <- reslice b (sub (size rb) (r rb)) (slen b) ;;
      s2 <- reslice (buf rb) 0 (w rb) ;;
      Ok (copy h2 d2 s2, Some b)
    else Ok (h, None)
  else if w rb >? r rb then
    '(h1, b) <- alloc h (sub (w rb) (r rb)) ;;
    s1 <- reslice (buf rb) (r rb) (w rb) ;;
    Ok (copy h1 b s1, Some b)
  else
    let n := add (sub (size rb) (r rb)) (w rb) in
    '(h1, b) <- alloc h n ;;
    if add (r rb) n <? size rb then
      s1 <- reslice (buf rb) (r rb) (add (r rb) n) ;;
      Ok (copy h1 b s1, Some b)
    else
      let c1 := sub (size rb) (r rb) in
      s1 <- reslice (buf rb) (r rb) (size rb) ;;
      let h2 := copy h1 b s1 in
      let c2 := sub n c1 in
      d2 <- reslice b c1 (slen b) ;;
      s2 <- reslice (buf rb) 0 c2 ;;
      Ok (copy h2 d2 s2, Some b).

End Ref.

(** The buffer a heap and a buffer over it stand for. *)
Definition view (h : Ref.heap) (rb : Ref.RingBuffer) : RingBuffer :=
  mkRingBuffer (Ref.contents h (Ref.buf rb)) (Ref.size rb) (Ref.r rb)
    (Ref.w rb) (Ref.isFull rb).

(** The storage of a buffer as [New] sets it up and every method
    leaves it: the whole of an array of the heap, of the buffer's
    size. *)
Definition allocated (h : Ref.heap) (rb : Ref.RingBuffer) : Prop :=
  (Ref.base (Ref.buf rb) < List.length h)%nat /\
  Ref.off (Ref.buf rb) = 0 /\
  Ref.slen (Ref.buf rb) = Ref.size rb /\
  Ref.scap (Ref.buf rb) = Ref.size rb /\
  len (Ref.array h (Ref.base (Ref.buf rb))) = Ref.size rb.

(* ================================================================= *)
(** ** Closed forms used by the proofs *)

(** What [l[lo:lo+n]] holds, and what [copy(l[off:], src)] leaves in
    [l], when the bounds checks pass. *)
Definition seg (l : list byte) (lo n : Z) : list byte := takeZ n (dropZ lo l).
Definition blit (l : list byte) (off : Z) (src : list byte) : list byte :=
  takeZ off l ++ copy (dropZ off l) src.

(** Position [a] of a ring of [s] slots, for [0 <= a < 2 * s]. *)
Definition ring (s a : Z) : Z := if a <? s then a else a - s.

(* ================================================================= *)
(** ** Sample states and sequences of operations *)

Definition abcd (k : nat) : list byte :=
  concat (repeat [x61; x62; x63; x64] k).

Definition buffer_of (x : result RingBuffer) : RingBuffer :=
  match x with Ok rb => rb | Panic _ => mkRingBuffer [] 0 0 0 false end.

Definition sample_rb0 : RingBuffer :=
  mkRingBuffer [x00; x00; x00; x00] 4 0 0 false.

Definition sample_ops : list op :=
  [OpWrite [x61; x62; x63]; OpRead [x00; x00]; OpWriteByte x64;
   OpWrite [x65; x66; x67]; OpReadByte; OpReset; OpWrite [x68]].

Definition sample_drain_ops : list op :=
  [OpWrite [x61; x62; x63]; OpRead [x00; x00; x00]].

Definition sample_rb1 : RingBuffer :=
  mkRingBuffer [x61; x62; x63; x64] 4 3 1 false.

Definition sample_full : RingBuffer :=
  mkRingBuffer [x61; x62; x63; x64] 4 2 2 true.

Definition sample_empty : RingBuffer :=
  mkRingBuffer [x61; x62; x63; x64] 4 2 2 false.

Definition sample_wrapped : RingBuffer :=
  mkRingBuffer [x61; x62; x63; x64; x65] 5 3 2 false.

Definition sample_heap : Ref.heap := [[x61; x62; x63; x64; x65]].

Definition sample_ref : Ref.RingBuffer :=
  Ref.mkRingBuffer (Ref.mkSlice 0 0 5 5) 5 3 2 false.

Definition zero_rb0 : RingBuffer := mkRingBuffer [] 0 0 0 false.

Definition zero_rb1 : RingBuffer := mkRingBuffer [] 0 0 0 true.

Definition zero_ops : list op :=
  [OpRead [x00]; OpWrite [x61; x62]; OpBytes; OpWrite [x63]; OpReset;
   OpReadByte; OpWrite [x64]].

(* ================================================================= *)
(** ** The test suite's scenarios, evaluated *)

Example wrap_scenario :
  let rb0 := buffer_of (New 64) in
  let rb1 := buffer_of (exec (OpWrite (abcd 2)) rb0) in
  let rb2 := buffer_of (exec (OpRead (repeat x00 5)) rb1) in
  let rb3 := buffer_of (exec (OpWrite (abcd 15)) rb2) in
  Length rb2 = 3 /\
  Write rb2 (abcd 15) = Ok (rb3, (60, None)) /\
  Bytes rb3 = Ok ([x62; x63; x64] ++ abcd 15) /\
  (r rb3, w rb3, isFull rb3) = (5, 4, false).
Proof. vm_compute. repeat split. Qed.

Example byte_interface_scenario :
  let rb0 := buffer_of (New 2) in
  let rb1 := buffer_of (exec (OpWriteByte x61) rb0) in
  let rb2 := buffer_of (exec (OpWriteByte x62) rb1) in
  let rb3 := buffer_of (exec OpReadByte rb2) in
  let rb4 := buffer_of (exec OpReadByte rb3) in
  (Length rb1, Free rb1, Bytes rb1) = (1, 1, Ok [x61]) /\
  (IsFull rb2, Bytes rb2) = (true, Ok [x61; x62]) /\
  WriteByte rb2 x63 = Ok (rb2, Some ErrFull) /\
  ReadByte rb2 = Ok (rb3, (x61, None)) /\
  Bytes rb3 = Ok [x62] /\
  ReadByte rb3 = Ok (rb4, (x62, None)) /\
  (IsEmpty rb4, Length rb4, Free rb4) = (true, 0, 2) /\
  ReadByte rb4 = Ok (rb4, (x00, Some ErrEmpty)).
Proof. vm_compute. repeat split. Qed.

(* ================================================================= *)
(** ** Arithmetic of [int] *)

Lemma wrap_id z : int_min <= z <= int_max -> wrap z = z.
Proof.
  unfold wrap, int_min, int_max. intros H.
  rewrite Z.mod_small; lia.
Qed.

Lemma maxAlloc_bound : maxAlloc <= 4611686018427387904.
Proof. unfold maxAlloc. lia. Qed.

Lemma add_id a b : int_min <= a + b <= int_max -> add a b = a + b.
Proof. apply wrap_id. Qed.

Lemma sub_id a b : int_min <= a - b <= int_max -> sub a b = a - b.
Proof. apply wrap_id. Qed.

Lemma rem_ring a s :
  0 < s -> 0 <= a < 2 * s ->
  rem a s = Ok (if a <? s then a else a - s).
Proof.
  intros Hs Ha. unfold rem.
  destruct (Z.eqb_spec s 0) as [E | _]; [lia |].
  f_equal. rewrite Z.rem_mod_nonneg by lia.
  destruct (Z.ltb_spec a s).
  - apply Z.mod_small. lia.
  - symmetry. apply (Z.mod_unique a s 1 (a - s)); lia.
Qed.

Lemma mod_ring a s :
  0 < s -> 0 <= a < 2 * s ->
  a mod s = if a <? s then a else a - s.
Proof.
  intros Hs Ha. destruct (Z.ltb_spec a s).
  - apply Z.mod_small. lia.
  - symmetry. apply (Z.mod_unique a s 1 (a - s)); lia.
Qed.

(* ================================================================= *)
(** ** Lists read by position *)

Lemma len_nonneg l : 0 <= len l.
Proof. unfold len. lia. Qed.

Lemma len_app a b : len (a ++ b) = len a + len b.
Proof. unfold len. rewrite length_app. lia. Qed.

Lemma len_takeZ n l : 0 <= n <= len l -> len (takeZ n l) = n.
Proof. unfold len, takeZ. intros H. rewrite length_firstn. lia. Qed.

Lemma len_dropZ n l : 0 <= n <= len l -> len (dropZ n l) = len l - n.
Proof. unfold len, dropZ. intros H. rewrite length_skipn. lia. Qed.

Lemma len_repeat n : 0 <= n -> len (repeat x00 (Z.to_nat n)) = n.
Proof. unfold len. intros H. rewrite repeat_length. lia. Qed.

Lemma len_nil_inv l : len l = 0 -> l = [].
Proof. unfold len. destruct l; simpl; [reflexivity | lia]. Qed.

Lemma takeZ_all l : takeZ (len l) l = l.
Proof. unfold takeZ, len. rewrite Nat2Z.id. apply firstn_all. Qed.

Lemma nthZ_app_l a b i : 0 <= i < len a -> nthZ (a ++ b) i = nthZ a i.
Proof. unfold nthZ, len. intros H. apply app_nth1. lia. Qed.

Lemma nthZ_app_r a b i : len a <= i -> nthZ (a ++ b) i = nthZ b (i - len a).
Proof.
  unfold nthZ, len. intros H. rewrite app_nth2 by lia.
  f_equal. lia.
Qed.

Lemma nthZ_takeZ n l i : 0 <= i < n -> nthZ (takeZ n l) i = nthZ l i.
Proof.
  unfold nthZ, takeZ. intros H. rewrite nth_firstn.
  destruct (Nat.ltb_spec (Z.to_nat i) (Z.to_nat n)); [reflexivity | lia].
Qed.

Lemma nthZ_dropZ n l i : 0 <= n -> 0 <= i -> nthZ (dropZ n l) i = nthZ l (n + i).
Proof.
  unfold nthZ, dropZ. intros Hn Hi. rewrite nth_skipn.
  f_equal. lia.
Qed.

Lemma list_ext a b :
  len a = len b ->
  (forall i, 0 <= i < len a -> nthZ a i = nthZ b i) ->
  a = b.
Proof.
  unfold len, nthZ. intros Hl Hn.
  apply (nth_ext a b x00 x00); [lia |].
  intros n Hlt. specialize (Hn (Z.of_nat n)).
  rewrite Nat2Z.id in Hn. apply Hn. lia.
Qed.

(* ================================================================= *)
(** ** The slice primitives when their checks pass *)

Lemma len_seg l lo n :
  0 <= lo -> 0 <= n -> lo + n <= len l -> len (seg l lo n) = n.
Proof.
  intros Hlo Hn Hl. unfold seg.
  rewrite len_takeZ; [reflexivity |]. rewrite len_dropZ; lia.
Qed.

Lemma nthZ_seg l lo n i :
  0 <= lo -> 0 <= i < n -> nthZ (seg l lo n) i = nthZ l (lo + i).
Proof.
  intros Hlo Hi. unfold seg.
  rewrite nthZ_takeZ by lia. apply nthZ_dropZ; lia.
Qed.

Lemma slice_ok l lo hi :
  0 <= lo -> lo <= hi -> hi <= len l ->
  slice l lo hi = Ok (seg l lo (hi - lo)).
Proof.
  intros H1 H2 H3. unfold slice.
  destruct (Z.leb_spec 0 lo); [| lia].
  destruct (Z.leb_spec lo hi); [| lia].
  destruct (Z.leb_spec hi (len l)); [| lia].
  reflexivity.
Qed.

Lemma slice_to_ok l hi :
  0 <= hi <= len l -> slice_to l hi = Ok (seg l 0 hi).
Proof.
  intros H. unfold slice_to. rewrite slice_ok by lia.
  rewrite Z.sub_0_r. reflexivity.
Qed.

Lemma slice_from_ok l lo :
  0 <= lo <= len l -> slice_from l lo = Ok (seg l lo (len l - lo)).
Proof. intros H. unfold slice_from. apply slice_ok; lia. Qed.

Lemma seg_to_end l lo : 0 <= lo <= len l -> seg l lo (len l - lo) = dropZ lo l.
Proof.
  intros H. unfold seg. rewrite <- (len_dropZ lo l) by lia. apply takeZ_all.
Qed.

Lemma len_copy dst src : len (copy dst src) = len dst.
Proof.
  unfold copy. pose proof (len_nonneg dst). pose proof (len_nonneg src).
  rewrite len_app, len_takeZ, len_dropZ; lia.
Qed.

Lemma copy_blit dst src : copy dst src = blit dst 0 src.
Proof. reflexivity. Qed.

Lemma len_blit l off src : 0 <= off <= len l -> len (blit l off src) = len l.
Proof.
  intros H. unfold blit.
  rewrite len_app, len_copy, len_takeZ, len_dropZ; lia.
Qed.

Lemma nthZ_blit l off src i :
  0 <= off <= len l -> 0 <= i < len l ->
  nthZ (blit l off src) i =
  if (off <=? i) && (i <? off + len src) then nthZ src (i - off)
  else nthZ l i.
Proof.
  intros Hoff Hi. unfold blit, copy.
  pose proof (len_nonneg src) as Hs.
  assert (Hd : len (dropZ off l) = len l - off) by (apply len_dropZ; lia).
  rewrite Hd.
  destruct (Z.leb_spec off i) as [Hle | Hlt]; simpl.
  - rewrite nthZ_app_r by (rewrite len_takeZ; lia).
    rewrite len_takeZ by lia.
    destruct (Z.ltb_spec i (off + len src)) as [Hin | Hout].
    + rewrite nthZ_app_l by (rewrite len_takeZ; lia).
      apply nthZ_takeZ. lia.
    + rewrite nthZ_app_r by (rewrite len_takeZ; lia).
      rewrite len_takeZ by lia.
      rewrite !nthZ_dropZ by lia. f_equal. lia.
  - rewrite nthZ_app_l by (rewrite len_takeZ; lia).
    apply nthZ_takeZ. lia.
Qed.

Lemma copy_at_ok l off src :
  0 <= off <= len l -> copy_at l off src = Ok (blit l off src).
Proof.
  intros H. unfold copy_at. rewrite slice_from_ok by lia. simpl.
  rewrite seg_to_end by lia. reflexivity.
Qed.

Lemma make_ok n : 0 <= n <= maxAlloc -> make n = Ok (repeat x00 (Z.to_nat n)).
Proof.
  intros H. unfold make.
  destruct (Z.ltb_spec n 0); [lia |].
  destruct (Z.ltb_spec maxAlloc n); [lia |]. reflexivity.
Qed.

Lemma index_ok l i : 0 <= i < len l -> index l i = Ok (nthZ l i).
Proof.
  intros H. unfold index.
  destruct (Z.leb_spec 0 i); [| lia].
  destruct (Z.ltb_spec i (len l)); [| lia]. reflexivity.
Qed.

Lemma store_ok l i c :
  0 <= i < len l ->
  exists l', store l i c = Ok l' /\ len l' = len l.
Proof.
  intros H. unfold store.
  destruct (Z.leb_spec 0 i); [| lia].
  destruct (Z.ltb_spec i (len l)); [| lia]. simpl.
  eexists. split; [reflexivity |].
  rewrite len_app, len_takeZ by lia.
  change (c :: dropZ (i + 1) l) with ([c] ++ dropZ (i + 1) l).
  rewrite len_app, len_dropZ by lia. change (len [c]) with 1. lia.
Qed.

(* ================================================================= *)
(** ** Occupancy of a well-formed buffer *)

Ltac int_bound := unfold int_min, int_max; lia.
Ltac int_step :=
  match goal with
  | |- context [add ?a ?b] => rewrite (add_id a b) by int_bound
  | |- context [sub ?a ?b] => rewrite (sub_id a b) by int_bound
  end.
Ltac int_simpl := repeat int_step.

Ltac no_if t :=
  lazymatch t with
  | context [if _ then _ else _] => fail
  | _ => idtac
  end.
Ltac cmp_step :=
  match goal with
  | |- context [?a >=? ?b] => rewrite (Z.geb_leb a b)
  | |- context [?a >? ?b] => rewrite (Z.gtb_ltb a b)
  | |- context [?a =? ?b] => no_if a; no_if b; destruct (Z.eqb_spec a b)
  | |- context [?a <=? ?b] => no_if a; no_if b; destruct (Z.leb_spec a b)
  | |- context [?a <? ?b] => no_if a; no_if b; destruct (Z.ltb_spec a b)
  end.
Ltac cmp := repeat cmp_step.

Ltac wf_inv H :=
  let Hlen := fresh "Hlen" in
  let Hsize := fresh "Hsize" in
  let Hr := fresh "Hr" in
  let Hw := fresh "Hw" in
  let Hfull := fresh "Hfull" in
  destruct H as [Hlen Hsize Hr Hw Hfull];
  simpl in Hlen, Hsize, Hr, Hw, Hfull;
  pose proof maxAlloc_bound.

Lemma Length_Free rb : wf rb -> Length rb + Free rb = size rb.
Proof.
  intros H. destruct rb as [b s rr ww f]. wf_inv H.
  unfold Length, Free; simpl.
  destruct f; cmp; int_simpl; lia.
Qed.

Lemma Free_notfull rb :
  wf rb -> isFull rb = false ->
  Free rb = if r rb <=? w rb then size rb - w rb + r rb else r rb - w rb.
Proof.
  intros H Hf. destruct rb as [b s rr ww f]. wf_inv H. simpl in *. subst f.
  unfold Free; simpl. cmp; int_simpl; lia.
Qed.

Lemma Length_notfull rb :
  wf rb -> isFull rb = false ->
  Length rb = if r rb <=? w rb then w rb - r rb else size rb - r rb + w rb.
Proof.
  intros H Hf. destruct rb as [b s rr ww f]. wf_inv H. simpl in *. subst f.
  unfold Length; simpl. cmp; int_simpl; lia.
Qed.

Lemma Length_full rb : wf rb -> isFull rb = true -> Length rb = size rb.
Proof.
  intros H Hf. destruct rb as [b s rr ww f]. wf_inv H. simpl in *. subst f.
  unfold Length; simpl. cmp; int_simpl; lia.
Qed.

(* ================================================================= *)
(** ** Closed forms of the operations on a well-formed buffer *)

Lemma Write_closed rb p :
  wf rb -> isFull rb = false -> 0 < len p ->
  let n := Z.min (len p) (Free rb) in
  exists b',
    Write rb p =
      Ok (mkRingBuffer b' (size rb) (r rb) (ring (size rb) (w rb + n))
            (n =? Free rb),
          (n, if Free rb <? len p then Some ErrFull else None)) /\
    len b' = size rb /\
    forall j, 0 <= j < size rb ->
      nthZ b' j =
      let d := ring (size rb) (j - w rb + size rb) in
      if d <? n then nthZ p d else nthZ (buf rb) j.
Proof.
  intros H Hf Hp. rewrite (Free_notfull rb H Hf).
  destruct rb as [b s rr ww f]. wf_inv H. simpl in *. subst f.
  unfold Write; simpl.
  destruct (Z.eqb_spec (len p) 0) as [E | _]; [lia |].
  remember (if rr <=? ww then s - ww + rr else rr - ww) as avail eqn:Eav.
  assert (Hav : (if ww >=? rr then add (sub s ww) rr else sub rr ww) = avail).
  { subst avail. cmp; int_simpl; lia. }
  rewrite Hav. clear Hav.
  assert (Hcase : (rr <= ww /\ avail = s - ww + rr) \/
                  (ww < rr /\ avail = rr - ww)).
  { subst avail. destruct (Z.leb_spec rr ww); [left | right]; lia. }
  clear Eav.
  set (n := Z.min (len p) avail).
  assert (Htrunc : exists q,
    (if len p >? avail
     then p' <- slice_to p avail ;; Ok (Some ErrFull, p')
     else Ok (None, p)) =
    Ok (if avail <? len p then Some ErrFull else None, q) /\
    len q = n /\ forall d, 0 <= d < n -> nthZ q d = nthZ p d).
  { rewrite Z.gtb_ltb. unfold n.
    destruct (Z.ltb_spec avail (len p)).
    - rewrite slice_to_ok by lia. simpl. eexists. split; [reflexivity |].
      split.
      + rewrite len_seg; lia.
      + intros d Hd. rewrite nthZ_seg by lia. reflexivity.
    - exists p. split; [reflexivity |]. split; [lia | reflexivity]. }
  destruct Htrunc as (q & Eq & Hlq & Hnq). rewrite Eq. clear Eq. simpl.
  rewrite Hlq.
  assert (Hn : 0 < n <= avail) by (unfold n; lia).
  assert (En : (n =? avail) = (n =? avail)) by reflexivity.
  clearbody n.
  rewrite !Z.geb_leb.
  destruct Hcase as [[Hrw Ea] | [Hwr Ea]]; subst avail;
    (destruct (Z.leb_spec rr ww); [| try lia]); try lia.
  - int_simpl. destruct (Z.leb_spec n (s - ww)) as [Hc1 | Hc1].
    + rewrite copy_at_ok by lia. simpl. int_simpl.
      exists (blit b ww q). split; [| split].
      * unfold ring. repeat f_equal; cmp; first [reflexivity | lia].
      * rewrite len_blit; lia.
      * intros j Hj. rewrite nthZ_blit by lia. rewrite Hlq.
        unfold ring. cmp; simpl; try lia; rewrite <- ?Hnq by lia;
          try reflexivity; f_equal; lia.
    + rewrite slice_to_ok by lia. simpl.
      rewrite copy_at_ok by lia. simpl.
      rewrite slice_from_ok by lia. simpl.
      rewrite copy_at_ok by (rewrite len_blit; lia). simpl. int_simpl.
      eexists. split; [| split].
      * unfold ring. repeat f_equal; cmp; first [reflexivity | lia].
      * rewrite !len_blit; rewrite ?len_blit; lia.
      * intros j Hj.
        rewrite nthZ_blit by (rewrite ?len_blit; lia).
        rewrite nthZ_blit by lia.
        rewrite !len_seg by lia. rewrite Hlq.
        unfold ring. cmp; simpl; try lia;
          rewrite ?nthZ_seg by lia; rewrite <- ?Hnq by lia;
          try reflexivity; f_equal; lia.
  - int_simpl. rewrite copy_at_ok by lia. simpl. int_simpl.
    exists (blit b ww q). split; [| split].
    + unfold ring. repeat f_equal; cmp; first [reflexivity | lia].
    + rewrite len_blit; lia.
    + intros j Hj. rewrite nthZ_blit by lia. rewrite Hlq.
      unfold ring. cmp; simpl; try lia; rewrite <- ?Hnq by lia;
        try reflexivity; f_equal; lia.
Qed.
Lemma min_if a b : (if a >? b then b else a) = Z.min b a.
Proof. rewrite Z.gtb_ltb. destruct (Z.ltb_spec b a); lia. Qed.

Lemma Length_cases rb :
  wf rb ->
  (r rb < w rb /\ isFull rb = false /\ Length rb = w rb - r rb) \/
  (w rb <= r rb /\ (isFull rb = true \/ w rb < r rb) /\
   Length rb = size rb - r rb + w rb) \/
  (w rb = r rb /\ isFull rb = false /\ Length rb = 0).
Proof.
  intros H. destruct rb as [b s rr ww f]. wf_inv H. simpl in *.
  unfold Length; simpl.
  destruct f; cmp; int_simpl; try (specialize (Hfull eq_refl)); try lia.
  all: right; left; repeat split; try lia; left; reflexivity.
Qed.

Lemma Read_closed rb p :
  wf rb -> 0 < len p -> 0 < Length rb ->
  let n := Z.min (len p) (Length rb) in
  exists p',
    Read rb p =
      Ok (mkRingBuffer (buf rb) (size rb) (ring (size rb) (r rb + n)) (w rb)
            false, p', (n, None)) /\
    len p' = len p /\
    forall i, 0 <= i < len p ->
      nthZ p' i =
      if i <? n then nthZ (buf rb) (ring (size rb) (r rb + i)) else nthZ p i.
Proof.
  intros H Hp Hl.
  destruct (Length_cases rb H) as [(Hc & Hf & HL) | [(Hc & Hf & HL) | (_ & _ & HL)]];
    [| | lia]; rewrite HL in *; clear HL;
    destruct rb as [b s rr ww f]; wf_inv H; simpl in *;
    unfold Read; simpl;
    (destruct (Z.eqb_spec (len p) 0) as [E | _]; [lia |]).
  - (* the unread bytes are contiguous *)
    subst f. destruct (Z.eqb_spec ww rr) as [E | _]; [lia |]. simpl.
    rewrite (Z.gtb_ltb ww rr). destruct (Z.ltb_spec rr ww) as [_ | ?]; [| lia].
    int_simpl. rewrite min_if. set (n := Z.min (len p) (ww - rr)).
    assert (Hn : 0 < n <= ww - rr /\ n <= len p) by (unfold n; lia).
    clearbody n. int_simpl.
    rewrite slice_ok by lia. simpl. rewrite rem_ring by lia. simpl.
    rewrite copy_blit.
    eexists. split; [| split].
    + unfold ring. reflexivity.
    + rewrite len_blit; lia.
    + intros i Hi. rewrite nthZ_blit by lia.
      rewrite len_seg by lia. unfold ring.
      cmp; simpl; try lia; rewrite ?nthZ_seg by lia;
        try reflexivity; f_equal; lia.
  - (* the unread bytes run to the end of the storage and beyond *)
    assert (Eg : (ww =? rr) && negb f = false).
    { destruct Hf as [-> | ?]; [apply andb_false_r |].
      destruct (Z.eqb_spec ww rr); [lia | reflexivity]. }
    rewrite Eg. clear Eg.
    rewrite (Z.gtb_ltb ww rr). destruct (Z.ltb_spec rr ww) as [? | _]; [lia |].
    int_simpl. rewrite min_if. set (n := Z.min (len p) (s - rr + ww)).
    assert (Hn : 0 < n <= s - rr + ww /\ n <= len p) by (unfold n; lia).
    clearbody n. int_simpl.
    destruct (Z.leb_spec (rr + n) s) as [Hfit | Hwrap].
    + rewrite slice_ok by lia. simpl. rewrite rem_ring by lia. simpl.
      rewrite copy_blit.
      eexists. split; [| split].
      * unfold ring. reflexivity.
      * rewrite len_blit; lia.
      * intros i Hi. rewrite nthZ_blit by lia.
        rewrite len_seg by lia. unfold ring.
        cmp; simpl; try lia; rewrite ?nthZ_seg by lia;
          try reflexivity; f_equal; lia.
    + rewrite slice_ok by lia. simpl.
      rewrite slice_ok by lia. simpl.
      rewrite copy_blit.
      rewrite copy_at_ok by (rewrite len_blit; lia). simpl.
      rewrite rem_ring by lia. simpl.
      eexists. split; [| split].
      * unfold ring. reflexivity.
      * rewrite !len_blit; rewrite ?len_blit; lia.
      * intros i Hi.
        rewrite nthZ_blit by (rewrite ?len_blit; lia).
        rewrite nthZ_blit by lia.
        rewrite !len_seg by lia. unfold ring.
        cmp; simpl; try lia; rewrite ?nthZ_seg by lia;
          try reflexivity; f_equal; lia.
Qed.

Lemma Length_nonneg rb : wf rb -> 0 <= Length rb <= size rb.
Proof.
  intros H.
  destruct (Length_cases rb H) as [(? & ? & ->) | [(? & Hf & ->) | (? & ? & ->)]];
    destruct H; lia.
Qed.

Lemma len_unread rb : wf rb -> len (unread rb) = Length rb.
Proof.
  intros H. pose proof (Length_nonneg rb H).
  unfold unread, len. rewrite length_map, length_seq. lia.
Qed.

Lemma nthZ_unread rb i :
  wf rb -> 0 <= i < Length rb ->
  nthZ (unread rb) i = nthZ (buf rb) (ring (size rb) (r rb + i)).
Proof.
  intros H Hi. pose proof (Length_nonneg rb H) as HL.
  unfold unread, nthZ at 1.
  set (f := fun k : nat => nthZ (buf rb) ((r rb + Z.of_nat k) mod size rb)).
  rewrite (nth_indep _ x00 (f 0%nat))
    by (rewrite length_map, length_seq; lia).
  rewrite map_nth. rewrite seq_nth by lia. unfold f. simpl.
  rewrite Z2Nat.id by lia.
  destruct H. rewrite mod_ring by lia. reflexivity.
Qed.

Ltac len_tac :=
  repeat (rewrite len_blit || rewrite len_repeat || rewrite len_seg); lia.

Lemma Bytes_closed rb : wf rb -> Bytes rb = Ok (unread rb).
Proof.
  intros H.
  assert (Hex : exists l, Bytes rb = Ok l /\ len l = Length rb /\
            forall i, 0 <= i < Length rb ->
              nthZ l i = nthZ (buf rb) (ring (size rb) (r rb + i))).
  { destruct (Length_cases rb H) as [(Hc & Hf & HL) | [(Hc & Hf & HL) | (Hc & Hf & HL)]];
      rewrite HL; clear HL;
      destruct rb as [b s rr ww f]; wf_inv H; simpl in *;
      unfold Bytes; simpl.
    - subst f. destruct (Z.eqb_spec ww rr) as [E | _]; [lia |].
      rewrite (Z.gtb_ltb ww rr).
      destruct (Z.ltb_spec rr ww) as [_ | ?]; [| lia].
      int_simpl. rewrite make_ok by lia. simpl.
      rewrite slice_ok by lia. simpl. rewrite copy_blit.
      eexists. split; [reflexivity |]. split.
      + len_tac.
      + intros i Hi. rewrite nthZ_blit by len_tac.
        rewrite len_seg by lia. unfold ring.
        cmp; simpl; try lia; rewrite ?nthZ_seg by lia;
          try reflexivity; f_equal; lia.
    - destruct (Z.eqb_spec ww rr) as [E | N].
      + (* full *)
        destruct Hf as [-> | ?]; [| lia]. subst ww.
        rewrite make_ok by lia. simpl.
        rewrite slice_from_ok by lia. simpl.
        rewrite slice_to_ok by lia. simpl. int_simpl.
        rewrite copy_blit.
        rewrite copy_at_ok by len_tac.
        eexists. split; [reflexivity |]. split.
        * len_tac.
        * intros i Hi.
          rewrite nthZ_blit by len_tac.
          rewrite nthZ_blit by len_tac.
          rewrite !len_seg by lia. unfold ring.
          cmp; simpl; try lia; rewrite ?nthZ_seg by lia;
            try reflexivity; f_equal; lia.
      + rewrite (Z.gtb_ltb ww rr).
        destruct (Z.ltb_spec rr ww) as [? | _]; [lia |].
        int_simpl. rewrite make_ok by lia. simpl.
        destruct (Z.ltb_spec (rr + (s - rr + ww)) s) as [? | _]; [lia |].
        rewrite slice_ok by lia. simpl.
        rewrite slice_ok by lia. simpl.
        rewrite copy_blit.
        rewrite copy_at_ok by len_tac.
        eexists. split; [reflexivity |]. split.
        * len_tac.
        * intros i Hi.
          rewrite nthZ_blit by len_tac.
          rewrite nthZ_blit by len_tac.
          rewrite !len_seg by lia. unfold ring.
          cmp; simpl; try lia; rewrite ?nthZ_seg by lia;
            try reflexivity; f_equal; lia.
    - subst f. destruct (Z.eqb_spec ww rr) as [_ | ?]; [| lia].
      exists []. split; [reflexivity |]. split; [reflexivity |].
      intros i Hi. lia. }
  destruct Hex as (l & El & Hl & Hn). rewrite El. f_equal.
  apply list_ext.
  - rewrite len_unread by assumption. assumption.
  - intros i Hi. rewrite Hl in Hi.
    rewrite Hn, nthZ_unread by assumption. reflexivity.
Qed.

(* ================================================================= *)
(** ** Empty and full buffers, empty requests *)

Lemma Read_nil rb : Read rb [] = Ok (rb, [], (0, None)).
Proof. reflexivity. Qed.

Lemma Write_nil rb : Write rb [] = Ok (rb, (0, None)).
Proof. reflexivity. Qed.

Lemma len_pos p : p <> [] -> 0 < len p.
Proof. destruct p; [congruence |]. unfold len. simpl. lia. Qed.

Lemma Length_zero rb :
  wf rb -> Length rb = 0 -> w rb = r rb /\ isFull rb = false.
Proof.
  intros H HL.
  destruct (Length_cases rb H) as [(? & ? & E) | [(? & Hf & E) | (? & ? & E)]];
    rewrite E in HL; destruct H as [_ ? ? ? Hfull].
  - lia.
  - destruct Hf as [Hf | ?]; [specialize (Hfull Hf) |]; lia.
  - split; assumption.
Qed.

Lemma Length_capacity rb :
  wf rb -> Length rb = Capacity rb -> isFull rb = true.
Proof.
  intros H HL. unfold Capacity in HL.
  destruct (Length_cases rb H) as [(? & ? & E) | [(? & Hf & E) | (? & ? & E)]];
    rewrite E in HL; destruct H as [_ ? ? ? Hfull].
  - lia.
  - destruct Hf as [Hf | ?]; [assumption | lia].
  - lia.
Qed.

Lemma Read_empty rb p :
  w rb = r rb -> isFull rb = false -> p <> [] ->
  Read rb p = Ok (rb, p, (0, Some ErrEmpty)).
Proof.
  intros Hw Hf Hp. apply len_pos in Hp. unfold Read.
  destruct (Z.eqb_spec (len p) 0); [lia |].
  rewrite Hw, Hf, Z.eqb_refl. reflexivity.
Qed.

Lemma ReadByte_empty rb :
  w rb = r rb -> isFull rb = false ->
  ReadByte rb = Ok (rb, (x00, Some ErrEmpty)).
Proof.
  intros Hw Hf. unfold ReadByte. rewrite Hw, Hf, Z.eqb_refl. reflexivity.
Qed.

Lemma Write_full rb p :
  isFull rb = true -> p <> [] -> Write rb p = Ok (rb, (0, Some ErrFull)).
Proof.
  intros Hf Hp. apply len_pos in Hp. unfold Write.
  destruct (Z.eqb_spec (len p) 0); [lia |].
  rewrite Hf. reflexivity.
Qed.

Lemma WriteByte_full rb c :
  wf rb -> isFull rb = true -> WriteByte rb c = Ok (rb, Some ErrFull).
Proof.
  intros H Hf. unfold WriteByte.
  rewrite (wf_full rb H Hf), Hf, Z.eqb_refl. reflexivity.
Qed.

(* ================================================================= *)
(** ** Every operation keeps a buffer well formed *)

Lemma New_wf C rb : 0 < C -> New C = Ok rb -> wf rb /\ size rb = C.
Proof.
  intros HC. unfold New, make.
  destruct (Z.ltb_spec C 0); [lia |].
  destruct (Z.ltb_spec maxAlloc C); simpl; [discriminate |].
  intros E. injection E as <-. split; [| reflexivity].
  constructor; simpl; try lia; try discriminate.
  apply len_repeat. lia.
Qed.

Lemma Reset_wf rb : wf rb -> wf (Reset rb).
Proof.
  intros [? ? ? ? ?]. constructor; simpl; try assumption; lia.
Qed.

Lemma Read_wf rb p :
  wf rb ->
  exists rb' p' n e,
    Read rb p = Ok (rb', p', (n, e)) /\ wf rb' /\ size rb' = size rb.
Proof.
  intros H.
  destruct (Z.eq_dec (len p) 0) as [E | N].
  { apply len_nil_inv in E. subst p. exists rb, [], 0, None.
    split; [reflexivity | split; [assumption | reflexivity]]. }
  assert (Hp : 0 < len p) by (pose proof (len_nonneg p); lia).
  pose proof (Length_nonneg rb H) as HL.
  destruct (Z.eq_dec (Length rb) 0) as [E0 | N0].
  { destruct (Length_zero rb H E0) as [Hw Hf].
    exists rb, p, 0, (Some ErrEmpty). split; [| split; [assumption | reflexivity]].
    apply Read_empty; trivial. intros ->. apply N. reflexivity. }
  destruct (Read_closed rb p H Hp) as (p' & E & _); [lia |].
  do 4 eexists. split; [exact E |]. split; [| reflexivity].
  destruct H as [? ? ? ? ?].
  constructor; simpl; try assumption; [| discriminate].
  unfold ring. cmp; lia.
Qed.

Lemma ReadByte_wf rb :
  wf rb ->
  exists rb' b e, ReadByte rb = Ok (rb', (b, e)) /\ wf rb' /\ size rb' = size rb.
Proof.
  intros H. unfold ReadByte.
  destruct ((w rb =? r rb) && negb (isFull rb)).
  { exists rb, x00, (Some ErrEmpty). split; [reflexivity | split; [assumption | reflexivity]]. }
  destruct rb as [b s rr ww f]. wf_inv H. simpl in *.
  rewrite index_ok by lia. simpl. int_simpl.
  do 3 eexists. split; [reflexivity |]. split; [| reflexivity].
  constructor; simpl; try assumption; try discriminate. cmp; lia.
Qed.

Lemma Write_wf rb p :
  wf rb ->
  exists rb' n e, Write rb p = Ok (rb', (n, e)) /\ wf rb' /\ size rb' = size rb.
Proof.
  intros H.
  destruct (Z.eq_dec (len p) 0) as [E | N].
  { apply len_nil_inv in E. subst p. exists rb, 0, None.
    split; [reflexivity | split; [assumption | reflexivity]]. }
  assert (Hp : 0 < len p) by (pose proof (len_nonneg p); lia).
  destruct (isFull rb) eqn:Hf.
  { exists rb, 0, (Some ErrFull). split; [| split; [assumption | reflexivity]].
    apply Write_full; trivial. intros ->. apply N. reflexivity. }
  destruct (Write_closed rb p H Hf Hp) as (b' & E & Hb & _).
  do 3 eexists. split; [exact E |]. split; [| reflexivity].
  rewrite (Free_notfull rb H Hf).
  destruct rb as [b s rr ww f]. wf_inv H. simpl in *.
  constructor; simpl; try assumption.
  - unfold ring. cmp; lia.
  - unfold ring. cmp; try discriminate; lia.
Qed.

Lemma WriteByte_wf rb c :
  wf rb ->
  exists rb' e, WriteByte rb c = Ok (rb', e) /\ wf rb' /\ size rb' = size rb.
Proof.
  intros H. unfold WriteByte.
  destruct ((w rb =? r rb) && isFull rb) eqn:G.
  { exists rb, (Some ErrFull). split; [reflexivity | split; [assumption | reflexivity]]. }
  destruct rb as [b s rr ww f]. wf_inv H. simpl in *.
  destruct (store_ok b ww c) as (b' & E & Hb); [lia |].
  rewrite E. simpl. int_simpl.
  do 2 eexists. split; [reflexivity |]. split; [| reflexivity].
  constructor; simpl; try assumption; try lia.
  - cmp; lia.
  - destruct f.
    + specialize (Hfull eq_refl). subst ww.
      rewrite Z.eqb_refl in G. discriminate.
    + cmp; try discriminate; lia.
Qed.

Lemma exec_wf o rb :
  wf rb -> exists rb', exec o rb = Ok rb' /\ wf rb' /\ size rb' = size rb.
Proof.
  intros H. destruct o as [p | | p | c | s | | | | | | |]; simpl.
  - destruct (Read_wf rb p H) as (rb' & p' & n & e & E & Hwf & Hs).
    rewrite E. simpl. eauto.
  - destruct (ReadByte_wf rb H) as (rb' & b & e & E & Hwf & Hs).
    rewrite E. simpl. eauto.
  - destruct (Write_wf rb p H) as (rb' & n & e & E & Hwf & Hs).
    rewrite E. simpl. eauto.
  - destruct (WriteByte_wf rb c H) as (rb' & e & E & Hwf & Hs).
    rewrite E. simpl. eauto.
  - unfold WriteString. simpl.
    destruct (Write_wf rb (slice_bytes
                (mkSlice (str_data s) (str_len s) (str_len s))) H)
      as (rb' & n & e & E & Hwf & Hs).
    rewrite E. simpl. eauto.
  - eauto.
  - eauto.
  - eauto.
  - rewrite Bytes_closed by assumption. simpl. eauto.
  - eauto.
  - eauto.
  - exists (Reset rb). split; [reflexivity |]. split; [| reflexivity].
    apply Reset_wf. assumption.
Qed.

Lemma run_wf ops rb :
  wf rb -> exists rb', run ops rb = Ok rb' /\ wf rb' /\ size rb' = size rb.
Proof.
  revert rb. induction ops as [| o ops IH]; intros rb H; simpl.
  - exists rb. split; [reflexivity | split; [assumption | reflexivity]].
  - destruct (exec_wf o rb H) as (rb1 & E1 & Hwf1 & Hs1).
    rewrite E1. simpl.
    destruct (IH rb1 Hwf1) as (rb2 & E2 & Hwf2 & Hs2).
    exists rb2. split; [exact E2 | split; [assumption | lia]].
Qed.

Lemma created_wf C rb0 ops rb :
  0 < C -> New C = Ok rb0 -> run ops rb0 = Ok rb -> wf rb /\ size rb = C.
Proof.
  intros HC E0 E. destruct (New_wf C rb0 HC E0) as [H0 Hs0].
  destruct (run_wf ops rb0 H0) as (rb' & E' & Hwf & Hs).
  rewrite E in E'. injection E' as <-. split; [assumption | lia].
Qed.

(* ================================================================= *)
(** ** What a write adds to, and a read takes from, the unread bytes *)

Lemma Free_zero_full rb : wf rb -> isFull rb = true -> Free rb = 0.
Proof.
  intros H Hf. pose proof (Length_Free rb H).
  rewrite (Length_full rb H Hf) in *. lia.
Qed.

Lemma notfull_cases rb :
  wf rb -> isFull rb = false ->
  (r rb <= w rb /\ Length rb = w rb - r rb /\
   Free rb = size rb - w rb + r rb) \/
  (w rb < r rb /\ Length rb = size rb - r rb + w rb /\
   Free rb = r rb - w rb).
Proof.
  intros H Hf.
  rewrite (Length_notfull rb H Hf), (Free_notfull rb H Hf).
  destruct (Z.leb_spec (r rb) (w rb)); [left | right]; lia.
Qed.

Lemma Write_unread rb p :
  wf rb -> isFull rb = false -> 0 < len p ->
  let n := Z.min (len p) (Free rb) in
  exists rb',
    Write rb p = Ok (rb', (n, if Free rb <? len p then Some ErrFull else None)) /\
    wf rb' /\
    IsFull rb' = (n =? Free rb) /\
    Length rb' = Length rb + n /\
    unread rb' = unread rb ++ takeZ n p.
Proof.
  intros H Hf Hp n.
  destruct (Write_closed rb p H Hf Hp) as (b' & E & Hb & Hnth).
  destruct (Write_wf rb p H) as (rb1 & n1 & e1 & E1 & Hwf1 & _).
  fold n in E, Hnth. rewrite E in E1. injection E1 as <- _ _.
  eexists. split; [exact E |]. split; [exact Hwf1 |].
  split; [reflexivity |].
  assert (Hn : 0 < n <= Free rb /\ n <= len p /\ 0 < Free rb).
  { unfold n. pose proof (Length_Free rb H).
    destruct (notfull_cases rb H Hf) as [(? & ? & ?) | (? & ? & ?)];
      destruct H; lia. }
  clearbody n. clear E.
  assert (HL1 : Length
      {| buf := b'; size := size rb; r := r rb;
         w := ring (size rb) (w rb + n); isFull := n =? Free rb |} =
    Length rb + n).
  { destruct (notfull_cases rb H Hf) as [(Hc & EL & EF) | (Hc & EL & EF)];
      rewrite EL, EF in *; clear Hnth Hwf1;
      destruct rb as [b s rr ww f]; wf_inv H; simpl in *;
      unfold Length, ring; simpl; cmp; int_simpl; lia. }
  split; [exact HL1 |].
  apply list_ext.
  - rewrite len_app, !len_unread, len_takeZ by (assumption || lia).
    exact HL1.
  - intros i Hi. rewrite len_unread in Hi by assumption.
    rewrite HL1 in Hi.
    rewrite nthZ_unread by (assumption || lia). simpl buf. simpl size. simpl r.
    assert (Hring : 0 <= ring (size rb) (r rb + i) < size rb).
    { pose proof (Length_Free rb H). destruct H. unfold ring. cmp; lia. }
    rewrite Hnth by exact Hring. cbv zeta. clear Hnth Hwf1 HL1.
    destruct (Z.ltb_spec i (Length rb)) as [Hold | Hnew].
    + rewrite nthZ_app_l by (rewrite len_unread by assumption; lia).
      rewrite nthZ_unread by (assumption || lia).
      destruct (notfull_cases rb H Hf) as [(Hc & EL & EF) | (Hc & EL & EF)];
        rewrite ?EL, ?EF in *;
        destruct rb as [b s rr ww f]; wf_inv H; simpl in *;
        unfold ring in *; cmp; try lia; reflexivity.
    + rewrite nthZ_app_r by (rewrite len_unread by assumption; lia).
      rewrite len_unread by assumption.
      rewrite nthZ_takeZ by lia.
      destruct (notfull_cases rb H Hf) as [(Hc & EL & EF) | (Hc & EL & EF)];
        rewrite ?EL, ?EF in *;
        destruct rb as [b s rr ww f]; wf_inv H; simpl in *;
        unfold ring in *; cmp; try lia; f_equal; lia.
Qed.

Lemma Read_unread rb p :
  wf rb -> 0 < len p -> 0 < Length rb ->
  let n := Z.min (len p) (Length rb) in
  exists rb',
    Read rb p = Ok (rb', takeZ n (unread rb) ++ dropZ n p, (n, None)) /\
    wf rb' /\
    Length rb' = Length rb - n /\
    unread rb' = dropZ n (unread rb).
Proof.
  intros H Hp HL n.
  destruct (Read_closed rb p H Hp HL) as (p' & E & Hlp & Hnth).
  destruct (Read_wf rb p H) as (rb1 & p1 & n1 & e1 & E1 & Hwf1 & _).
  fold n in E, Hnth. rewrite E in E1. injection E1 as <- _ _ _.
  pose proof (Length_nonneg rb H) as HLs.
  assert (Hn : 0 < n <= Length rb /\ n <= len p) by (unfold n; lia).
  clearbody n.
  assert (Ep : p' = takeZ n (unread rb) ++ dropZ n p).
  { apply list_ext.
    - rewrite len_app, len_takeZ, len_dropZ
        by (rewrite ?len_unread by assumption; lia). lia.
    - intros i Hi. rewrite Hlp in Hi. rewrite Hnth by assumption.
      destruct (Z.ltb_spec i n) as [Hin | Hout].
      + rewrite nthZ_app_l
          by (rewrite len_takeZ by (rewrite len_unread by assumption; lia); lia).
        rewrite nthZ_takeZ by lia.
        rewrite nthZ_unread by (assumption || lia). reflexivity.
      + rewrite nthZ_app_r
          by (rewrite len_takeZ by (rewrite len_unread by assumption; lia); lia).
        rewrite len_takeZ by (rewrite len_unread by assumption; lia).
        rewrite nthZ_dropZ by lia. f_equal. lia. }
  subst p'. clear Hnth Hlp.
  eexists. split; [exact E |]. split; [exact Hwf1 |]. clear E.
  assert (HL1 : Length
      {| buf := buf rb; size := size rb; r := ring (size rb) (r rb + n);
         w := w rb; isFull := false |} = Length rb - n).
  { clear Hwf1.
    destruct (Length_cases rb H)
      as [(Hc & Hf & EL) | [(Hc & Hf & EL) | (Hc & Hf & EL)]];
      rewrite EL in *;
      destruct rb as [b s rr ww f]; wf_inv H; simpl in *;
      unfold Length, ring; simpl; cmp; int_simpl; lia. }
  split; [exact HL1 |].
  apply list_ext.
  - rewrite len_dropZ by (rewrite len_unread by assumption; lia).
    rewrite !len_unread by assumption. exact HL1.
  - intros i Hi. rewrite len_unread in Hi by assumption. rewrite HL1 in Hi.
    rewrite nthZ_unread by (assumption || lia).
    rewrite nthZ_dropZ by lia.
    rewrite nthZ_unread by (assumption || lia).
    simpl buf. simpl size. simpl r. clear Hwf1 HL1.
    f_equal.
    destruct (Length_cases rb H)
      as [(Hc & Hf & EL) | [(Hc & Hf & EL) | (Hc & Hf & EL)]];
      rewrite EL in *; destruct H; unfold ring; cmp; lia.
Qed.

(* ================================================================= *)
(** ** The buffer of capacity zero *)

Lemma New_zero rb : New 0 = Ok rb -> zero_cap rb /\ isFull rb = false.
Proof.
  intros E. vm_compute in E. injection E as <-.
  repeat split.
Qed.

Lemma zero_cap_inv rb :
  zero_cap rb -> rb = mkRingBuffer [] 0 0 0 (isFull rb).
Proof.
  destruct rb as [b s rr ww f]. unfold zero_cap. simpl.
  intros (-> & -> & -> & ->). reflexivity.
Qed.

Lemma int_zero : sub 0 0 = 0 /\ add 0 0 = 0.
Proof. split; reflexivity. Qed.

Lemma Read_zero_full p :
  p <> [] -> Read (mkRingBuffer [] 0 0 0 true) p = Panic DivideByZero.
Proof.
  intros Hp. apply len_pos in Hp. unfold Read. simpl.
  destruct (Z.eqb_spec (len p) 0); [lia |].
  rewrite (proj1 int_zero), (proj2 int_zero).
  rewrite Z.gtb_ltb. destruct (Z.ltb_spec (len p) 0); [lia |].
  rewrite (proj2 int_zero). reflexivity.
Qed.

Lemma Write_zero_notfull p :
  p <> [] ->
  Write (mkRingBuffer [] 0 0 0 false) p =
  Ok (mkRingBuffer [] 0 0 0 true, (0, Some ErrFull)).
Proof.
  intros Hp. apply len_pos in Hp. unfold Write. simpl.
  destruct (Z.eqb_spec (len p) 0); [lia |].
  rewrite (proj1 int_zero), (proj2 int_zero).
  rewrite Z.gtb_ltb. destruct (Z.ltb_spec 0 (len p)); [| lia].
  rewrite slice_to_ok by lia. reflexivity.
Qed.

Lemma exec_zero o rb rb' :
  zero_cap rb -> exec o rb = Ok rb' -> zero_cap rb'.
Proof.
  intros Hz E. rewrite (zero_cap_inv rb Hz) in E.
  assert (Hz0 : forall f, zero_cap (mkRingBuffer [] 0 0 0 f))
    by (intros f; repeat split).
  assert (Hnil : forall q : list byte, q = [] \/ q <> [])
    by (intros [| x q]; [left; reflexivity | right; discriminate]).
  destruct (isFull rb); destruct o as [p | | p | c | s | | | | | | |];
    simpl in E;
    try (injection E as <-; apply Hz0);
    try discriminate E.
  - destruct (Hnil p) as [-> | Hp].
    + injection E as <-. apply Hz0.
    + rewrite Read_zero_full in E by assumption. discriminate E.
  - destruct (Hnil p) as [-> | Hp].
    + injection E as <-. apply Hz0.
    + rewrite Write_full in E by (assumption || reflexivity).
      injection E as <-. apply Hz0.
  - unfold WriteString in E. simpl in E.
    destruct (Hnil (slice_bytes (mkSlice (str_data s) (str_len s) (str_len s))))
      as [E0 | Hp].
    + rewrite E0 in E. injection E as <-. apply Hz0.
    + rewrite Write_full in E by (assumption || reflexivity).
      injection E as <-. apply Hz0.
  - destruct (Hnil p) as [-> | Hp].
    + injection E as <-. apply Hz0.
    + rewrite Read_empty in E by (assumption || reflexivity).
      injection E as <-. apply Hz0.
  - destruct (Hnil p) as [-> | Hp].
    + injection E as <-. apply Hz0.
    + rewrite Write_zero_notfull in E by assumption.
      injection E as <-. apply Hz0.
  - unfold WriteString in E. simpl in E.
    destruct (Hnil (slice_bytes (mkSlice (str_data s) (str_len s) (str_len s))))
      as [E0 | Hp].
    + rewrite E0 in E. injection E as <-. apply Hz0.
    + rewrite Write_zero_notfull in E by assumption.
      injection E as <-. apply Hz0.
Qed.

Lemma run_zero ops rb rb' :
  zero_cap rb -> run ops rb = Ok rb' -> zero_cap rb'.
Proof.
  revert rb. induction ops as [| o ops IH]; intros rb Hz E; simpl in E.
  - injection E as <-. assumption.
  - destruct (exec o rb) as [rb1 |] eqn:E1; simpl in E; [| discriminate E].
    apply (IH rb1); [| assumption]. apply (exec_zero o rb); assumption.
Qed.

Lemma created_buffer_state C rb0 ops rb :
  New C = Ok rb0 -> run ops rb0 = Ok rb -> buffer_state rb.
Proof.
  intros E0 E. destruct (Z.lt_trichotomy C 0) as [Hneg | [-> | Hpos]].
  - unfold New, make in E0.
    destruct (Z.ltb_spec C 0); [discriminate E0 | lia].
  - right. apply (run_zero ops rb0); [| assumption].
    apply New_zero. assumption.
  - left. apply (created_wf C rb0 ops rb); assumption.
Qed.

Lemma zero_cap_occupancy rb :
  zero_cap rb ->
  Capacity rb = 0 /\ Length rb = 0 /\ Free rb = 0 /\
  IsEmpty rb = negb (IsFull rb).
Proof.
  intros Hz. rewrite (zero_cap_inv rb Hz).
  destruct (isFull rb); repeat split.
Qed.

(* ================================================================= *)
(** ** The properties of the specification *)

(** C1 (round trip).  On a buffer created with capacity [C > 0], in
    whatever empty state it is (fresh, or emptied again after any
    sequence of operations, with the cursors anywhere), writing a
    payload of [N] bytes, [0 < N <= C], accepts all [N] bytes without
    error; reading into a destination of [N] bytes then returns [N]
    and leaves exactly the written bytes, in order, in the destination;
    afterwards [Length()] is [0]. *)
Theorem C1_write_read_roundtrip C rb0 ops rb p dst :
  0 < C -> New C = Ok rb0 -> run ops rb0 = Ok rb -> Length rb = 0 ->
  0 < len p <= C -> len dst = len p ->
  exists rb1 rb2,
    Write rb p = Ok (rb1, (len p, None)) /\
    Read rb1 dst = Ok (rb2, p, (len p, None)) /\
    Length rb2 = 0.
Proof.
  intros HC E0 E HL0 Hp Hd.
  destruct (created_wf C rb0 ops rb HC E0 E) as [H Hs].
  destruct (Length_zero rb H HL0) as [_ Hf].
  assert (HF0 : Free rb = C) by (pose proof (Length_Free rb H); lia).
  assert (Hu0 : unread rb = []) by (unfold unread; rewrite HL0; reflexivity).
  destruct (Write_unread rb p H Hf) as (rb1 & E1 & H1 & _ & HL1 & Hu1); [lia |].
  rewrite HF0, HL0, Hu0 in *.
  replace (Z.min (len p) C) with (len p) in * by lia.
  destruct (Z.ltb_spec C (len p)) as [? | _]; [lia |].
  rewrite takeZ_all in Hu1. simpl in Hu1, HL1.
  destruct (Read_unread rb1 dst H1) as (rb2 & E2 & _ & HL2 & _); [lia | lia |].
  rewrite HL1, Hu1, Hd in *.
  replace (Z.min (len p) (len p)) with (len p) in * by lia.
  rewrite takeZ_all in E2.
  assert (Hdrop : dropZ (len p) dst = []).
  { apply len_nil_inv. rewrite len_dropZ; lia. }
  rewrite Hdrop, app_nil_r in E2.
  exists rb1, rb2. split; [exact E1 |]. split; [exact E2 | lia].
Qed.

Lemma C1_witness :
  let rb := buffer_of (run sample_drain_ops sample_rb0) in
  let p := [x65; x66; x67] in
  let dst := [x00; x00; x00] in
  (r rb, w rb) = (3, 3) /\
  exists rb1 rb2,
    Write rb p = Ok (rb1, (len p, None)) /\
    Read rb1 dst = Ok (rb2, p, (len p, None)) /\
    Length rb2 = 0.
Proof.
  split; [reflexivity |].
  apply (C1_write_read_roundtrip 4 sample_rb0 sample_drain_ops
           (buffer_of (run sample_drain_ops sample_rb0))
           [x65; x66; x67] [x00; x00; x00]).
  - lia.
  - reflexivity.
  - reflexivity.
  - reflexivity.
  - unfold len. simpl. lia.
  - reflexivity.
Defined.

(** C2 (occupancy).  On a buffer created with capacity [C > 0], after
    every sequence of operations, [Length() + Free() == C]. *)
Theorem C2_length_plus_free C rb0 ops rb :
  0 < C -> New C = Ok rb0 -> run ops rb0 = Ok rb ->
  Length rb + Free rb = C.
Proof.
  intros HC E0 E.
  destruct (created_wf C rb0 ops rb HC E0 E) as [H Hs].
  rewrite <- Hs. apply Length_Free. assumption.
Qed.

Lemma C2_witness :
  Length (buffer_of (run sample_ops sample_rb0)) +
  Free (buffer_of (run sample_ops sample_rb0)) = 4.
Proof.
  apply (C2_length_plus_free 4 sample_rb0 sample_ops).
  - lia.
  - reflexivity.
  - reflexivity.
Defined.

(** C3 (state invariant).  On a buffer created with capacity [C > 0],
    in the initial state and after every operation, [0 <= readPos < C],
    [0 <= writePos < C], and [full] implies [readPos == writePos]; so
    exactly one of full, empty (cursors equal, flag clear) and
    cursors-unequal holds. *)
Theorem C3_state_invariant C rb0 ops rb :
  0 < C -> New C = Ok rb0 -> run ops rb0 = Ok rb ->
  Capacity rb = C /\
  0 <= r rb < C /\ 0 <= w rb < C /\
  (isFull rb = true -> r rb = w rb) /\
  exactly_one (st_full rb) (st_empty rb) (st_apart rb).
Proof.
  intros HC E0 E.
  destruct (created_wf C rb0 ops rb HC E0 E) as [H Hs].
  destruct H as [_ _ Hr Hw Hfull]. unfold Capacity. rewrite Hs in *.
  repeat (split; [assumption || lia |]).
  unfold exactly_one, st_full, st_empty, st_apart.
  destruct (isFull rb).
  - specialize (Hfull eq_refl). left.
    repeat split; [| lia]. intros [Hc _]. discriminate Hc.
  - destruct (Z.eq_dec (r rb) (w rb)) as [Eq | Ne].
    + right. left. repeat split; [discriminate | assumption | lia].
    + right. right. repeat split; [discriminate | | assumption].
      intros [_ Hc]. contradiction.
Qed.

Lemma C3_witness :
  let rb := buffer_of (run sample_ops sample_rb0) in
  Capacity rb = 4 /\
  0 <= r rb < 4 /\ 0 <= w rb < 4 /\
  (isFull rb = true -> r rb = w rb) /\
  exactly_one (st_full rb) (st_empty rb) (st_apart rb).
Proof.
  apply (C3_state_invariant 4 sample_rb0 sample_ops).
  - lia.
  - reflexivity.
  - reflexivity.
Defined.

(** C4 (truncated write).  In every buffer state with [F = Free() > 0],
    [Write] of a payload of [F + k] bytes, [k > 0], returns the count
    [F] together with [ErrFull], appends exactly the first [F] bytes of
    the payload to the unread bytes, and leaves [IsFull()] true. *)
Theorem C4_truncated_write rb p k :
  buffer_state rb -> 0 < Free rb -> 0 < k -> len p = Free rb + k ->
  exists rb' old,
    Write rb p = Ok (rb', (Free rb, Some ErrFull)) /\
    IsFull rb' = true /\
    Bytes rb = Ok old /\
    Bytes rb' = Ok (old ++ takeZ (Free rb) p).
Proof.
  intros [H | Hz] HF Hk Hp.
  2: { destruct (zero_cap_occupancy rb Hz) as (_ & _ & HF0 & _). lia. }
  assert (Hf : isFull rb = false).
  { destruct (isFull rb) eqn:Hf; [| reflexivity].
    rewrite (Free_zero_full rb H Hf) in HF. lia. }
  destruct (Write_unread rb p H Hf) as (rb' & E & H' & Hfull & _ & Hu); [lia |].
  replace (Z.min (len p) (Free rb)) with (Free rb) in * by lia.
  destruct (Z.ltb_spec (Free rb) (len p)) as [_ | ?]; [| lia].
  rewrite Z.eqb_refl in Hfull.
  exists rb', (unread rb). split; [exact E |]. split; [exact Hfull |].
  split; [apply Bytes_closed; assumption |].
  rewrite <- Hu. apply Bytes_closed. assumption.
Qed.

Lemma C4_witness :
  exists rb' old,
    Write sample_rb1 [x65; x66; x67; x68; x69] =
      Ok (rb', (Free sample_rb1, Some ErrFull)) /\
    IsFull rb' = true /\
    Bytes sample_rb1 = Ok old /\
    Bytes rb' = Ok (old ++ takeZ (Free sample_rb1) [x65; x66; x67; x68; x69]).
Proof.
  apply (C4_truncated_write sample_rb1 [x65; x66; x67; x68; x69] 3).
  - left. constructor; simpl; first [reflexivity | discriminate | unfold maxAlloc; lia].
  - reflexivity.
  - lia.
  - reflexivity.
Defined.

(** C5 (full-buffer rejection), as the code has it.  In every state of
    a buffer of positive capacity with [Length() == Capacity()], [Write]
    of a non-empty payload returns [(0, ErrFull)] and [WriteByte]
    returns [ErrFull]; both leave the whole state (storage, cursors,
    flag) as it was. *)
Theorem C5_full_rejects_writes rb p c :
  wf rb -> Length rb = Capacity rb -> p <> [] ->
  Write rb p = Ok (rb, (0, Some ErrFull)) /\
  WriteByte rb c = Ok (rb, Some ErrFull).
Proof.
  intros H HL Hp.
  pose proof (Length_capacity rb H HL) as Hf.
  split.
  - apply Write_full; assumption.
  - apply WriteByte_full; assumption.
Qed.

Lemma C5_witness :
  Write sample_full [x65] = Ok (sample_full, (0, Some ErrFull)) /\
  WriteByte sample_full x65 = Ok (sample_full, Some ErrFull).
Proof.
  apply (C5_full_rejects_writes sample_full [x65] x65).
  - constructor; simpl; first [reflexivity | discriminate | unfold maxAlloc; lia].
  - reflexivity.
  - discriminate.
Defined.

(** C5, as the specification states it, fails at capacity zero: the
    buffer [New(0)] returns has [Length() == Capacity() == 0]; a
    non-empty [Write] on it returns [(0, ErrFull)] but sets the full
    flag, and [WriteByte] panics on the empty storage. *)
Lemma C5_zero_capacity_write_mutates :
  New 0 = Ok zero_rb0 /\
  Length zero_rb0 = Capacity zero_rb0 /\
  Write zero_rb0 [x61] = Ok (zero_rb1, (0, Some ErrFull)) /\
  isFull zero_rb0 = false /\ isFull zero_rb1 = true /\
  WriteByte zero_rb0 x61 = Panic IndexOutOfRange.
Proof. vm_compute. repeat split. Qed.

(** C6 (empty-buffer rejection), as the code has it.  In every state
    of a buffer of positive capacity with no unread byte, [Read] into a
    non-empty destination and [ReadByte] return [ErrEmpty]; cursors,
    flag, storage and the destination are as they were. *)
Theorem C6_empty_rejects_reads rb p :
  wf rb -> Length rb = 0 -> p <> [] ->
  Read rb p = Ok (rb, p, (0, Some ErrEmpty)) /\
  ReadByte rb = Ok (rb, (x00, Some ErrEmpty)).
Proof.
  intros H HL Hp.
  destruct (Length_zero rb H HL) as [Hw Hf].
  split.
  - apply Read_empty; assumption.
  - apply ReadByte_empty; assumption.
Qed.

Lemma C6_witness :
  Read sample_empty [x00; x00] =
    Ok (sample_empty, [x00; x00], (0, Some ErrEmpty)) /\
  ReadByte sample_empty = Ok (sample_empty, (x00, Some ErrEmpty)).
Proof.
  apply (C6_empty_rejects_reads sample_empty [x00; x00]).
  - constructor; simpl; first [reflexivity | discriminate | unfold maxAlloc; lia].
  - reflexivity.
  - discriminate.
Defined.

(** C6, as the specification states it, fails at capacity zero: after
    [New(0)] and a non-empty [Write], the full flag is set while
    [Length()] is still [0]; [Read] into a non-empty destination then
    panics in [% r.size], and [ReadByte] panics on the empty storage. *)
Lemma C6_zero_capacity_read_panics :
  New 0 = Ok zero_rb0 /\
  run [OpWrite [x61]] zero_rb0 = Ok zero_rb1 /\
  Length zero_rb1 = 0 /\
  Read zero_rb1 [x00] = Panic DivideByZero /\
  ReadByte zero_rb1 = Panic IndexOutOfRange.
Proof. vm_compute. repeat split. Qed.

(** C7 (no panics), as the code has it.  On a buffer created with a
    capacity [C > 0], every sequence of public operations, with any
    arguments, runs to its end without a panic, and so does one more
    operation after it; a zero-length [Read] or [Write] is a no-op
    returning [(0, nil)] in every state, whatever the capacity. *)
Theorem C7_no_panic_positive_capacity C rb0 ops o :
  0 < C -> New C = Ok rb0 ->
  (exists rb rb', run ops rb0 = Ok rb /\ exec o rb = Ok rb') /\
  (forall rb : RingBuffer,
      Read rb [] = Ok (rb, [], (0, None)) /\
      Write rb [] = Ok (rb, (0, None))).
Proof.
  intros HC E0. split.
  - destruct (New_wf C rb0 HC E0) as [H0 _].
    destruct (run_wf ops rb0 H0) as (rb & E & H & _).
    destruct (exec_wf o rb H) as (rb' & E' & _).
    exists rb, rb'. split; assumption.
  - intros rb. split; [apply Read_nil | apply Write_nil].
Qed.

Lemma C7_witness :
  (exists rb rb',
      run sample_ops sample_rb0 = Ok rb /\
      exec (OpRead [x00; x00; x00]) rb = Ok rb') /\
  (forall rb : RingBuffer,
      Read rb [] = Ok (rb, [], (0, None)) /\
      Write rb [] = Ok (rb, (0, None))).
Proof.
  apply (C7_no_panic_positive_capacity 4 sample_rb0 sample_ops
           (OpRead [x00; x00; x00])).
  - lia.
  - reflexivity.
Defined.

(** C7, as the specification states it, fails at capacity zero:
    [New(0)] succeeds, and then [WriteByte] panics on the empty
    storage; after a non-empty [Write] has set the full flag, [Read]
    into a non-empty destination panics in [% r.size] and [ReadByte]
    panics on the empty storage. *)
Lemma C7_zero_capacity_panics :
  New 0 = Ok zero_rb0 /\
  exec (OpWriteByte x61) zero_rb0 = Panic IndexOutOfRange /\
  run [OpWrite [x61]; OpRead [x00]] zero_rb0 = Panic DivideByZero /\
  run [OpWrite [x61]; OpReadByte] zero_rb0 = Panic IndexOutOfRange.
Proof. vm_compute. repeat split. Qed.

(** C8 (capacity zero), as the code has it.  A buffer made by [New(0)]
    has [Capacity()], [Length()] and [Free()] all [0] after construction
    and after every sequence of operations that runs to its end, but
    [IsFull()] and [IsEmpty()] are never both true: [IsEmpty()] is the
    negation of [IsFull()], and after construction [IsFull()] is false
    and [IsEmpty()] is true. *)
Theorem C8_zero_capacity_degenerate rb0 ops rb :
  New 0 = Ok rb0 -> run ops rb0 = Ok rb ->
  (Capacity rb = 0 /\ Length rb = 0 /\ Free rb = 0 /\
   IsEmpty rb = negb (IsFull rb)) /\
  (IsFull rb0 = false /\ IsEmpty rb0 = true).
Proof.
  intros E0 E. destruct (New_zero rb0 E0) as [Hz0 Hf0]. split.
  - apply zero_cap_occupancy. apply (run_zero ops rb0); assumption.
  - destruct (zero_cap_occupancy rb0 Hz0) as (_ & _ & _ & He).
    unfold IsFull in *. rewrite He, Hf0. split; reflexivity.
Qed.

Lemma C8_witness :
  let rb := buffer_of (run zero_ops zero_rb0) in
  (Capacity rb = 0 /\ Length rb = 0 /\ Free rb = 0 /\
   IsEmpty rb = negb (IsFull rb)) /\
  (IsFull zero_rb0 = false /\ IsEmpty zero_rb0 = true).
Proof.
  apply (C8_zero_capacity_degenerate zero_rb0 zero_ops).
  - reflexivity.
  - reflexivity.
Defined.

(** C8, as the specification states it, fails: right after [New(0)],
    [IsFull()] is false; and once a non-empty [Write] has set the flag,
    [IsEmpty()] is false. *)
Lemma C8_new_zero_not_full :
  New 0 = Ok zero_rb0 /\
  IsFull zero_rb0 = false /\
  exec (OpWrite [x61]) zero_rb0 = Ok zero_rb1 /\
  IsEmpty zero_rb1 = false.
Proof. vm_compute. repeat split. Qed.

Example bytes_wrapped :
  Bytes sample_wrapped = Ok [x64; x65; x61; x62].
Proof. reflexivity. Qed.

(** C10 ([WriteString]).  In every buffer state and for every string,
    [WriteString(s)] returns the same count and error and leaves the
    same buffer as [Write] applied to the bytes of [s]. *)
Theorem C10_WriteString_refines_Write rb s :
  WriteString rb s = WriteString_spec rb s /\
  forall str : String.string,
    WriteString rb (of_string str) =
    Write rb (String.list_byte_of_string str).
Proof.
  split; [reflexivity |].
  intros str. unfold WriteString, of_string, slice_bytes. simpl.
  rewrite takeZ_all. reflexivity.
Qed.

(* ================================================================= *)
(** ** Writes and reads in every well-formed state *)

Lemma Free_nonneg rb : wf rb -> 0 <= Free rb <= size rb.
Proof.
  intros H. pose proof (Length_Free rb H). pose proof (Length_nonneg rb H). lia.
Qed.

Lemma Write_general rb p :
  wf rb ->
  let n := Z.min (len p) (Free rb) in
  exists rb',
    Write rb p = Ok (rb', (n, if Free rb <? len p then Some ErrFull else None)) /\
    wf rb' /\ size rb' = size rb /\
    Length rb' = Length rb + n /\
    unread rb' = unread rb ++ takeZ n p.
Proof.
  intros H n. pose proof (Free_nonneg rb H) as HF.
  pose proof (len_nonneg p) as Hp0.
  destruct (Z.eq_dec (len p) 0) as [E | N].
  { assert (En : n = 0) by (unfold n; lia).
    apply len_nil_inv in E. subst p. rewrite En. exists rb.
    destruct (Z.ltb_spec (Free rb) (len [])) as [Hc | _];
      [change (len []) with 0 in Hc; lia |].
    repeat (split; [first [reflexivity | assumption | lia] |]).
    rewrite app_nil_r. reflexivity. }
  destruct (isFull rb) eqn:Hf.
  { pose proof (Free_zero_full rb H Hf) as HF0.
    assert (En : n = 0) by (unfold n; lia). rewrite En.
    exists rb. rewrite HF0.
    destruct (Z.ltb_spec 0 (len p)) as [_ | ?]; [| lia].
    split; [apply Write_full; [assumption | intros Ep; apply N; rewrite Ep; reflexivity] |].
    repeat (split; [first [reflexivity | assumption | lia] |]).
    rewrite app_nil_r. reflexivity. }
  destruct (Write_unread rb p H Hf) as (rb' & E & H' & _ & HL & Hu); [lia |].
  destruct (Write_wf rb p H) as (rb1 & n1 & e1 & E1 & _ & Hs).
  rewrite E in E1. injection E1 as <- _ _.
  exists rb'. repeat (split; [assumption |]). assumption.
Qed.

Lemma Read_general rb p :
  wf rb ->
  let n := Z.min (len p) (Length rb) in
  exists rb',
    Read rb p =
      Ok (rb', takeZ n (unread rb) ++ dropZ n p,
          (n, if (0 <? len p) && (Length rb =? 0)
              then Some ErrEmpty else None)) /\
    wf rb' /\ size rb' = size rb /\
    Length rb' = Length rb - n /\
    unread rb' = dropZ n (unread rb).
Proof.
  intros H n. pose proof (Length_nonneg rb H) as HL.
  pose proof (len_nonneg p) as Hp0.
  destruct (Z.eq_dec (len p) 0) as [E | N].
  { assert (En : n = 0) by (unfold n; lia).
    apply len_nil_inv in E. subst p. rewrite En. exists rb.
    repeat (split; [first [reflexivity | assumption | lia] |]).
    reflexivity. }
  destruct (Z.ltb_spec 0 (len p)) as [Hp | ?]; [| lia]. simpl.
  destruct (Z.eqb_spec (Length rb) 0) as [E0 | N0].
  { assert (En : n = 0) by (unfold n; lia). rewrite En.
    destruct (Length_zero rb H E0) as [Hw Hf].
    exists rb. split.
    - change (takeZ 0 (unread rb) ++ dropZ 0 p) with p.
      apply Read_empty; [assumption | assumption |].
      intros Ep. apply N. rewrite Ep. reflexivity.
    - repeat (split; [first [reflexivity | assumption | lia] |]).
      reflexivity. }
  destruct (Read_unread rb p H Hp) as (rb' & E & H' & HL' & Hu); [lia |].
  destruct (Read_wf rb p H) as (rb1 & p1 & n1 & e1 & E1 & _ & Hs).
  rewrite E in E1. injection E1 as <- _ _ _.
  exists rb'. repeat (split; [assumption |]). assumption.
Qed.

(* ================================================================= *)
(** ** The single-byte methods *)

Lemma dropZ_dropZ a b l :
  0 <= a -> 0 <= b -> dropZ b (dropZ a l) = dropZ (a + b) l.
Proof.
  intros Ha Hb. unfold dropZ. rewrite skipn_skipn.
  f_equal. lia.
Qed.

Lemma blit_one l off c :
  0 <= off < len l ->
  blit l off [c] = takeZ off l ++ c :: dropZ (off + 1) l.
Proof.
  intros H. unfold blit, copy.
  rewrite len_dropZ by lia. change (len [c]) with 1.
  replace (Z.min (len l - off) 1) with 1 by lia.
  rewrite dropZ_dropZ by lia. reflexivity.
Qed.

Lemma WriteByte_Write rb c :
  wf rb ->
  exists rb' n e,
    Write rb [c] = Ok (rb', (n, e)) /\ WriteByte rb c = Ok (rb', e).
Proof.
  intros H. destruct (isFull rb) eqn:Hf.
  { exists rb, 0, (Some ErrFull). split.
    - apply Write_full; [assumption | discriminate].
    - apply WriteByte_full; assumption. }
  destruct rb as [b s rr ww f]. wf_inv H. simpl in *. subst f.
  unfold Write, WriteByte. simpl. change (len [c]) with 1.
  rewrite andb_false_r. rewrite !Z.geb_leb, !Z.gtb_ltb.
  destruct (Z.leb_spec rr ww) as [Hrw | Hwr]; int_simpl.
  - destruct (Z.ltb_spec (s - ww + rr) 1) as [? | _]; [lia |]. simpl.
    change (len [c]) with 1. rewrite ?Z.geb_leb.
    destruct (Z.leb_spec 1 (s - ww)) as [_ | ?]; [| lia].
    rewrite copy_at_ok by lia. simpl.
    rewrite blit_one by lia.
    unfold store.
    destruct (Z.leb_spec 0 ww); [| lia].
    destruct (Z.ltb_spec ww (len b)); [| lia]. simpl. int_simpl.
    do 3 eexists. split; reflexivity.
  - destruct (Z.ltb_spec (rr - ww) 1) as [? | _]; [lia |]. simpl.
    change (len [c]) with 1.
    rewrite copy_at_ok by lia. simpl.
    rewrite blit_one by lia.
    unfold store.
    destruct (Z.leb_spec 0 ww); [| lia].
    destruct (Z.ltb_spec ww (len b)); [| lia]. simpl. int_simpl.
    do 3 eexists. split; reflexivity.
Qed.

Lemma WriteByte_general rb c :
  wf rb ->
  exists rb',
    WriteByte rb c =
      Ok (rb', if Free rb =? 0 then Some ErrFull else None) /\
    wf rb' /\ size rb' = size rb /\
    unread rb' = if Free rb =? 0 then unread rb else unread rb ++ [c].
Proof.
  intros H. pose proof (Free_nonneg rb H) as HF.
  destruct (WriteByte_Write rb c H) as (rb' & n & e & EW & EB).
  destruct (Write_general rb [c] H) as (rb1 & E1 & H1 & Hs1 & _ & Hu1).
  rewrite EW in E1. injection E1 as <- En Ee.
  change (len [c]) with 1 in *.
  exists rb'. rewrite EB.
  destruct (Z.eqb_spec (Free rb) 0) as [E0 | N0].
  - rewrite E0 in *. simpl in Ee. subst e.
    repeat (split; [first [reflexivity | assumption] |]).
    rewrite Hu1. simpl. apply app_nil_r.
  - destruct (Z.ltb_spec (Free rb) 1) as [? | _]; [lia |]. subst e.
    repeat (split; [first [reflexivity | assumption] |]).
    rewrite Hu1. replace (Z.min 1 (Free rb)) with 1 by lia. reflexivity.
Qed.

Lemma len_one_inv (l : list byte) : len l = 1 -> l = [nthZ l 0].
Proof.
  destruct l as [| x [| y l]]; unfold len; simpl; intros E;
    [lia | reflexivity | lia].
Qed.

Lemma ReadByte_Read rb d :
  wf rb ->
  exists rb' b e,
    ReadByte rb = Ok (rb', (b, e)) /\
    Read rb [d] =
      Ok (rb', [match e with None => b | Some _ => d end],
          (match e with None => 1 | Some _ => 0 end, e)).
Proof.
  intros H. pose proof (Length_nonneg rb H) as HL.
  destruct (Z.eq_dec (Length rb) 0) as [E0 | N0].
  { destruct (Length_zero rb H E0) as [Hw Hf].
    exists rb, x00, (Some ErrEmpty). split.
    - apply ReadByte_empty; assumption.
    - apply Read_empty; [assumption | assumption | discriminate]. }
  destruct (Read_closed rb [d] H) as (p' & E & Hlp & Hnth);
    [reflexivity | lia |].
  change (len [d]) with 1 in *.
  replace (Z.min 1 (Length rb)) with 1 in * by lia.
  specialize (Hnth 0 ltac:(lia)). simpl in Hnth.
  rewrite (len_one_inv p' Hlp), Hnth in E. rewrite E. clear E Hnth Hlp p'.
  assert (Hne : (w rb =? r rb) && negb (isFull rb) = false).
  { destruct (Length_cases rb H)
      as [(Hc & Hf & EL) | [(Hc & Hf & EL) | (Hc & Hf & EL)]]; [| | lia].
    - destruct (Z.eqb_spec (w rb) (r rb)); [lia | reflexivity].
    - destruct Hf as [-> | ?]; [apply andb_false_r |].
      destruct (Z.eqb_spec (w rb) (r rb)); [lia | reflexivity]. }
  unfold ReadByte. rewrite Hne.
  destruct rb as [b s rr ww f]. wf_inv H. simpl in *.
  rewrite index_ok by lia. simpl. int_simpl.
  exists (mkRingBuffer b s (ring s (rr + 1)) ww false), (nthZ b rr), None.
  split.
  - unfold ring. repeat f_equal. cmp; lia.
  - unfold ring. repeat f_equal. cmp; try lia; f_equal; lia.
Qed.

Lemma ReadByte_general rb :
  wf rb ->
  exists rb',
    ReadByte rb =
      Ok (rb', (if Length rb =? 0 then x00 else nthZ (unread rb) 0,
                if Length rb =? 0 then Some ErrEmpty else None)) /\
    wf rb' /\ size rb' = size rb /\
    unread rb' = dropZ 1 (unread rb).
Proof.
  intros H. pose proof (Length_nonneg rb H) as HL.
  destruct (ReadByte_Read rb x00 H) as (rb' & b & e & EB & ER).
  destruct (Read_general rb [x00] H) as (rb1 & E1 & H1 & Hs1 & _ & Hu1).
  rewrite ER in E1. injection E1 as <- Ep En Ee.
  change (len [x00]) with 1 in *. simpl in Ee.
  exists rb'. rewrite EB.
  destruct (Z.eqb_spec (Length rb) 0) as [E0 | N0].
  - subst e. rewrite E0 in *. simpl in Ep.
    assert (Hu0 : unread rb = []).
    { apply len_nil_inv. rewrite len_unread; assumption. }
    split.
    + unfold ReadByte in EB.
      destruct ((w rb =? r rb) && negb (isFull rb));
        [injection EB as _ <-; reflexivity |].
      destruct (index (buf rb) (r rb)); simpl in EB; discriminate EB.
    + repeat (split; [assumption |]). rewrite Hu1, Hu0. reflexivity.
  - subst e. replace (Z.min 1 (Length rb)) with 1 in * by lia.
    split.
    + repeat f_equal.
      assert (Hl : 0 < len (unread rb)) by (rewrite len_unread; [lia | assumption]).
      destruct (unread rb) as [| u us]; [unfold len in Hl; simpl in Hl; lia |].
      simpl in Ep. injection Ep as ->. reflexivity.
    + repeat (split; [assumption |]). assumption.
Qed.

(* ================================================================= *)
(** ** What an operation leaves alone, in any state *)

Ltac ok_inv H :=
  cbv zeta in H;
  repeat (match type of H with
          | context [if ?c then _ else _] => destruct c
          | context [Go.bind ?m _] => destruct m; simpl in H
          | context [match ?a with pair _ _ => _ end] => destruct a
          end; cbv zeta in H);
  try discriminate H.

Lemma Read_frame rb p rb' p' x :
  Read rb p = Ok (rb', p', x) ->
  buf rb' = buf rb /\ size rb' = size rb /\ w rb' = w rb.
Proof.
  intros H. unfold Read in H. ok_inv H;
    injection H as <- _ _; repeat split.
Qed.

Lemma ReadByte_frame rb rb' x :
  ReadByte rb = Ok (rb', x) ->
  buf rb' = buf rb /\ size rb' = size rb /\ w rb' = w rb.
Proof.
  intros H. unfold ReadByte in H. ok_inv H;
    injection H as <- _; repeat split.
Qed.

Lemma Write_frame rb p rb' x :
  Write rb p = Ok (rb', x) -> size rb' = size rb /\ r rb' = r rb.
Proof.
  intros H. unfold Write in H. ok_inv H;
    injection H as <- _; repeat split.
Qed.

Lemma WriteByte_frame rb c rb' x :
  WriteByte rb c = Ok (rb', x) -> size rb' = size rb /\ r rb' = r rb.
Proof.
  intros H. unfold WriteByte in H. ok_inv H;
    injection H as <- _; repeat split.
Qed.

(* ================================================================= *)
(** ** Every operation acts on the unread bytes as on a bounded queue *)

Lemma Free_unread rb : wf rb -> Free rb = size rb - len (unread rb).
Proof.
  intros H. pose proof (Length_Free rb H). rewrite len_unread by assumption. lia.
Qed.

Lemma unread_Reset rb : unread (Reset rb) = [].
Proof.
  unfold unread.
  replace (Length (Reset rb)) with 0; [reflexivity |].
  unfold Length, Reset. simpl. reflexivity.
Qed.

Lemma exec_fifo o rb :
  wf rb ->
  exists rb',
    exec o rb = Ok rb' /\ wf rb' /\ size rb' = size rb /\
    unread rb' = fifo_exec (size rb) o (unread rb).
Proof.
  intros H. pose proof (Free_unread rb H) as HF.
  pose proof (len_unread rb H) as HL.
  destruct o as [p | | p | c | s | | | | | | |]; simpl.
  - destruct (Read_general rb p H) as (rb' & E & H' & Hs & _ & Hu).
    rewrite E. simpl. exists rb'. rewrite HL.
    repeat (split; [first [reflexivity | assumption] |]). assumption.
  - destruct (ReadByte_general rb H) as (rb' & E & H' & Hs & Hu).
    rewrite E. simpl. exists rb'.
    repeat (split; [first [reflexivity | assumption] |]). assumption.
  - destruct (Write_general rb p H) as (rb' & E & H' & Hs & _ & Hu).
    rewrite E. simpl. exists rb'. rewrite <- HF.
    repeat (split; [first [reflexivity | assumption] |]). assumption.
  - destruct (WriteByte_general rb c H) as (rb' & E & H' & Hs & Hu).
    rewrite E. simpl. exists rb'. rewrite <- HF.
    repeat (split; [first [reflexivity | assumption] |]). assumption.
  - change (WriteString rb s) with (Write rb (string_bytes s)).
    destruct (Write_general rb (string_bytes s) H)
      as (rb' & E & H' & Hs & _ & Hu).
    rewrite E. simpl. exists rb'. rewrite <- HF.
    repeat (split; [first [reflexivity | assumption] |]). assumption.
  - exists rb. repeat (split; [first [reflexivity | assumption] |]). reflexivity.
  - exists rb. repeat (split; [first [reflexivity | assumption] |]). reflexivity.
  - exists rb. repeat (split; [first [reflexivity | assumption] |]). reflexivity.
  - rewrite Bytes_closed by assumption. simpl.
    exists rb. repeat (split; [first [reflexivity | assumption] |]). reflexivity.
  - exists rb. repeat (split; [first [reflexivity | assumption] |]). reflexivity.
  - exists rb. repeat (split; [first [reflexivity | assumption] |]). reflexivity.
  - exists (Reset rb). split; [reflexivity |].
    split; [apply Reset_wf; assumption |]. split; [reflexivity |].
    apply unread_Reset.
Qed.

Lemma run_fifo ops rb :
  wf rb ->
  exists rb',
    run ops rb = Ok rb' /\ wf rb' /\ size rb' = size rb /\
    unread rb' = fifo_run (size rb) ops (unread rb).
Proof.
  revert rb. induction ops as [| o ops IH]; intros rb H; simpl.
  - exists rb. repeat (split; [first [reflexivity | assumption] |]). reflexivity.
  - destruct (exec_fifo o rb H) as (rb1 & E1 & H1 & Hs1 & Hu1).
    rewrite E1. simpl.
    destruct (IH rb1 H1) as (rb2 & E2 & H2 & Hs2 & Hu2).
    exists rb2. split; [assumption |]. split; [assumption |].
    split; [lia |]. rewrite Hu2, Hs1, Hu1. reflexivity.
Qed.

Lemma unread_New C rb : 0 < C -> New C = Ok rb -> unread rb = [].
Proof.
  intros HC E. unfold New in E.
  destruct (make C); simpl in E; [| discriminate E].
  injection E as <-. reflexivity.
Qed.

Lemma IsFull_Free rb : wf rb -> (Free rb =? 0) = IsFull rb.
Proof.
  intros H. unfold IsFull. destruct (isFull rb) eqn:Hf.
  - rewrite (Free_zero_full rb H Hf). reflexivity.
  - destruct (notfull_cases rb H Hf) as [(? & _ & ->) | (? & _ & ->)];
      destruct H; cmp; first [reflexivity | lia].
Qed.

Lemma IsEmpty_Length rb : wf rb -> (Length rb =? 0) = IsEmpty rb.
Proof.
  intros H. unfold IsEmpty.
  destruct (Length_cases rb H)
    as [(Hc & Hf & EL) | [(Hc & Hf & EL) | (Hc & Hf & EL)]]; rewrite EL.
  - rewrite Hf. simpl. cmp; first [reflexivity | lia].
  - destruct Hf as [Hf | Hlt].
    + rewrite Hf. simpl. destruct H. cmp; first [reflexivity | lia].
    + destruct H. rewrite andb_comm. cmp; first [reflexivity | lia].
  - rewrite Hf, Hc, !Z.eqb_refl. reflexivity.
Qed.

(* ================================================================= *)
(** ** Further properties of the operations *)

(** X1.  In every state of a buffer of positive capacity, [Write(p)]
    accepts [n = min(len(p), Free())] bytes: it returns [n], with
    [ErrFull] exactly when [len(p) > Free()]; the unread bytes
    afterwards are the unread bytes before followed by the first [n]
    bytes of [p], [Length()] grows by [n] and [Free()] shrinks by [n]. *)
Theorem X1_Write_appends_what_fits rb p :
  wf rb ->
  let n := Z.min (len p) (Free rb) in
  exists rb' old,
    Write rb p =
      Ok (rb', (n, if Free rb <? len p then Some ErrFull else None)) /\
    Bytes rb = Ok old /\
    Bytes rb' = Ok (old ++ takeZ n p) /\
    Length rb' = Length rb + n /\
    Free rb' = Free rb - n.
Proof.
  intros H n. subst n.
  destruct (Write_general rb p H) as (rb' & E & H' & Hs & HL & Hu).
  exists rb', (unread rb). split; [exact E |].
  split; [apply Bytes_closed; assumption |].
  split; [rewrite <- Hu; apply Bytes_closed; assumption |].
  split; [exact HL |].
  pose proof (Length_Free rb H). pose proof (Length_Free rb' H').
  lia.
Qed.

Lemma X1_witness :
  let p := [x65; x66; x67; x68; x69] in
  let n := Z.min (len p) (Free sample_rb1) in
  exists rb' old,
    Write sample_rb1 p =
      Ok (rb', (n, if Free sample_rb1 <? len p then Some ErrFull else None)) /\
    Bytes sample_rb1 = Ok old /\
    Bytes rb' = Ok (old ++ takeZ n p) /\
    Length rb' = Length sample_rb1 + n /\
    Free rb' = Free sample_rb1 - n.
Proof.
  apply (X1_Write_appends_what_fits sample_rb1 [x65; x66; x67; x68; x69]).
  constructor; simpl; first [reflexivity | discriminate | unfold maxAlloc; lia].
Defined.

(** X2.  In every state of a buffer of positive capacity, [Read(p)]
    delivers [n = min(len(p), Length())] bytes: it returns [n], with
    [ErrEmpty] exactly when [p] is not empty and nothing is unread; the
    first [n] places of [p] receive the [n] oldest unread bytes in
    order and the rest of [p] is untouched; those [n] bytes are gone
    from the unread bytes, [Length()] shrinks by [n] and [Free()] grows
    by [n]. *)
Theorem X2_Read_takes_the_oldest rb p :
  wf rb ->
  let n := Z.min (len p) (Length rb) in
  exists rb' old,
    Bytes rb = Ok old /\
    Read rb p =
      Ok (rb', takeZ n old ++ dropZ n p,
          (n, if (0 <? len p) && (Length rb =? 0)
              then Some ErrEmpty else None)) /\
    Bytes rb' = Ok (dropZ n old) /\
    Length rb' = Length rb - n /\
    Free rb' = Free rb + n.
Proof.
  intros H n. subst n.
  destruct (Read_general rb p H) as (rb' & E & H' & Hs & HL & Hu).
  exists rb', (unread rb). split; [apply Bytes_closed; assumption |].
  split; [exact E |].
  split; [rewrite <- Hu; apply Bytes_closed; assumption |].
  split; [exact HL |].
  pose proof (Length_Free rb H). pose proof (Length_Free rb' H').
  lia.
Qed.

Lemma X2_witness :
  let p := [x00; x00; x00] in
  let n := Z.min (len p) (Length sample_wrapped) in
  exists rb' old,
    Bytes sample_wrapped = Ok old /\
    Read sample_wrapped p =
      Ok (rb', takeZ n old ++ dropZ n p,
          (n, if (0 <? len p) && (Length sample_wrapped =? 0)
              then Some ErrEmpty else None)) /\
    Bytes rb' = Ok (dropZ n old) /\
    Length rb' = Length sample_wrapped - n /\
    Free rb' = Free sample_wrapped + n.
Proof.
  apply (X2_Read_takes_the_oldest sample_wrapped [x00; x00; x00]).
  constructor; simpl; first [reflexivity | discriminate | unfold maxAlloc; lia].
Defined.

(** X3.  In every state of a buffer of positive capacity,
    [WriteByte(c)] leaves the buffer that [Write] of the one-byte slice
    [[c]] leaves and returns the same error: [ErrFull] and no change
    when the buffer is full, otherwise [nil] with [c] appended to the
    unread bytes. *)
Theorem X3_WriteByte_is_Write_of_one_byte rb c :
  wf rb ->
  exists rb' n e old,
    Write rb [c] = Ok (rb', (n, e)) /\
    WriteByte rb c = Ok (rb', e) /\
    e = (if IsFull rb then Some ErrFull else None) /\
    Bytes rb = Ok old /\
    Bytes rb' = Ok (if IsFull rb then old else old ++ [c]).
Proof.
  intros H.
  destruct (WriteByte_Write rb c H) as (rb' & n & e & EW & EB).
  destruct (WriteByte_general rb c H) as (rb1 & E1 & H1 & _ & Hu1).
  rewrite EB in E1. injection E1 as <- Ee.
  rewrite (IsFull_Free rb H) in *.
  exists rb', n, e, (unread rb).
  split; [exact EW |]. split; [exact EB |]. split; [exact Ee |].
  split; [apply Bytes_closed; assumption |].
  rewrite <- Hu1. apply Bytes_closed. assumption.
Qed.

Lemma X3_witness :
  exists rb' n e old,
    Write sample_rb1 [x65] = Ok (rb', (n, e)) /\
    WriteByte sample_rb1 x65 = Ok (rb', e) /\
    e = (if IsFull sample_rb1 then Some ErrFull else None) /\
    Bytes sample_rb1 = Ok old /\
    Bytes rb' = Ok (if IsFull sample_rb1 then old else old ++ [x65]).
Proof.
  apply (X3_WriteByte_is_Write_of_one_byte sample_rb1 x65).
  constructor; simpl; first [reflexivity | discriminate | unfold maxAlloc; lia].
Defined.

(** X4.  In every state of a buffer of positive capacity, [ReadByte()]
    leaves the buffer that [Read] into a one-byte slice leaves, with the
    same error, and returns the byte [Read] stores in the slice: on an
    empty buffer [ErrEmpty], the zero byte and no change; otherwise
    [nil] and the oldest unread byte, which is removed. *)
Theorem X4_ReadByte_is_Read_of_one_byte rb d :
  wf rb ->
  exists rb' b e old,
    ReadByte rb = Ok (rb', (b, e)) /\
    Read rb [d] =
      Ok (rb', [match e with None => b | Some _ => d end],
          (match e with None => 1 | Some _ => 0 end, e)) /\
    Bytes rb = Ok old /\
    (IsEmpty rb = true -> e = Some ErrEmpty /\ b = x00 /\ rb' = rb) /\
    (IsEmpty rb = false ->
       e = None /\ old = b :: dropZ 1 old /\ Bytes rb' = Ok (dropZ 1 old)).
Proof.
  intros H.
  destruct (ReadByte_Read rb d H) as (rb' & b & e & EB & ER).
  destruct (ReadByte_general rb H) as (rb1 & E1 & H1 & _ & Hu1).
  rewrite EB in E1. injection E1 as <- Eb Ee.
  rewrite (IsEmpty_Length rb H) in *.
  exists rb', b, e, (unread rb).
  split; [exact EB |]. split; [exact ER |].
  split; [apply Bytes_closed; assumption |].
  split; intros He; rewrite He in *.
  - split; [exact Ee |]. split; [exact Eb |].
    rewrite <- (IsEmpty_Length rb H) in He.
    apply Z.eqb_eq in He. destruct (Length_zero rb H He) as [Hw Hf].
    rewrite (ReadByte_empty rb Hw Hf) in EB. injection EB as -> _ _.
    reflexivity.
  - split; [exact Ee |]. split.
    + rewrite <- (IsEmpty_Length rb H) in He. apply Z.eqb_neq in He.
      pose proof (Length_nonneg rb H).
      assert (Hl : 0 < len (unread rb))
        by (rewrite len_unread; [lia | assumption]).
      rewrite Eb. destruct (unread rb) as [| u us];
        [unfold len in Hl; simpl in Hl; lia | reflexivity].
    + rewrite <- Hu1. apply Bytes_closed. assumption.
Qed.

Lemma X4_witness :
  exists rb' b e old,
    ReadByte sample_wrapped = Ok (rb', (b, e)) /\
    Read sample_wrapped [x00] =
      Ok (rb', [match e with None => b | Some _ => x00 end],
          (match e with None => 1 | Some _ => 0 end, e)) /\
    Bytes sample_wrapped = Ok old /\
    (IsEmpty sample_wrapped = true ->
       e = Some ErrEmpty /\ b = x00 /\ rb' = sample_wrapped) /\
    (IsEmpty sample_wrapped = false ->
       e = None /\ old = b :: dropZ 1 old /\ Bytes rb' = Ok (dropZ 1 old)).
Proof.
  apply (X4_ReadByte_is_Read_of_one_byte sample_wrapped x00).
  constructor; simpl; first [reflexivity | discriminate | unfold maxAlloc; lia].
Defined.

(** X5.  [Reset()] empties the buffer whatever its state: afterwards
    [IsEmpty()] is true, [IsFull()] is false, [Length()] is [0],
    [Free()] equals [Capacity()], [Bytes()] is empty, and storage and
    capacity are as before.  On a buffer of positive capacity the whole
    capacity is free again: a following [Write] of up to [Capacity()]
    bytes is accepted in full and [Bytes()] then returns exactly those
    bytes. *)
Theorem X5_Reset_discards_everything rb :
  (IsEmpty (Reset rb) = true /\ IsFull (Reset rb) = false /\
   Length (Reset rb) = 0 /\ Free (Reset rb) = Capacity rb /\
   Bytes (Reset rb) = Ok [] /\
   buf (Reset rb) = buf rb /\ Capacity (Reset rb) = Capacity rb) /\
  (forall p, wf rb -> len p <= Capacity rb ->
     exists rb', Write (Reset rb) p = Ok (rb', (len p, None)) /\
                 Bytes rb' = Ok p).
Proof.
  split.
  - unfold IsEmpty, IsFull, Length, Free, Bytes, Capacity, Reset. simpl.
    repeat split.
  - intros p H Hp. pose proof (Reset_wf rb H) as HR.
    assert (HF : Free (Reset rb) = size rb) by reflexivity.
    pose proof (len_nonneg p).
    destruct (Write_general (Reset rb) p HR) as (rb' & E & H' & _ & _ & Hu).
    rewrite HF in *. unfold Capacity in Hp.
    replace (Z.min (len p) (size rb)) with (len p) in * by lia.
    destruct (Z.ltb_spec (size rb) (len p)) as [? | _]; [lia |].
    rewrite unread_Reset, takeZ_all in Hu. simpl in Hu.
    exists rb'. split; [exact E |].
    rewrite <- Hu. apply Bytes_closed. assumption.
Qed.

Lemma X5_witness :
  (IsEmpty (Reset sample_full) = true /\ IsFull (Reset sample_full) = false /\
   Length (Reset sample_full) = 0 /\
   Free (Reset sample_full) = Capacity sample_full /\
   Bytes (Reset sample_full) = Ok [] /\
   buf (Reset sample_full) = buf sample_full /\
   Capacity (Reset sample_full) = Capacity sample_full) /\
  exists rb', Write (Reset sample_full) [x65; x66; x67; x68] =
                Ok (rb', (len [x65; x66; x67; x68], None)) /\
              Bytes rb' = Ok [x65; x66; x67; x68].
Proof.
  destruct (X5_Reset_discards_everything sample_full) as [Hq Hw].
  split; [exact Hq |].
  apply (Hw [x65; x66; x67; x68]).
  - constructor; simpl; first [reflexivity | discriminate | unfold maxAlloc; lia].
  - unfold len, Capacity. simpl. lia.
Defined.

(** X6.  In every state of a buffer of positive capacity the predicates
    agree with the counters: [IsFull()] holds exactly when [Free()] is
    [0], exactly when [Length() == Capacity()]; [IsEmpty()] holds
    exactly when [Length()] is [0], exactly when
    [Free() == Capacity()]; the two never hold together, and
    [Length()] and [Free()] lie between [0] and [Capacity()]. *)
Theorem X6_predicates_agree_with_counters rb :
  wf rb ->
  (IsFull rb = true <-> Free rb = 0) /\
  (IsFull rb = true <-> Length rb = Capacity rb) /\
  (IsEmpty rb = true <-> Length rb = 0) /\
  (IsEmpty rb = true <-> Free rb = Capacity rb) /\
  (IsFull rb = true -> IsEmpty rb = false) /\
  0 <= Length rb <= Capacity rb /\ 0 <= Free rb <= Capacity rb.
Proof.
  intros H. pose proof (Length_Free rb H) as HLF.
  pose proof (Length_nonneg rb H) as HL.
  pose proof (IsFull_Free rb H) as HF. pose proof (IsEmpty_Length rb H) as HE.
  assert (Hs : 0 < size rb) by (destruct H; lia).
  unfold Capacity. rewrite <- HF, <- HE.
  rewrite !Z.eqb_eq.
  repeat split; lia.
Qed.

Lemma X6_witness :
  (IsFull sample_full = true <-> Free sample_full = 0) /\
  (IsFull sample_full = true <-> Length sample_full = Capacity sample_full) /\
  (IsEmpty sample_full = true <-> Length sample_full = 0) /\
  (IsEmpty sample_full = true <-> Free sample_full = Capacity sample_full) /\
  (IsFull sample_full = true -> IsEmpty sample_full = false) /\
  0 <= Length sample_full <= Capacity sample_full /\
  0 <= Free sample_full <= Capacity sample_full.
Proof.
  apply (X6_predicates_agree_with_counters sample_full).
  constructor; simpl; first [reflexivity | discriminate | unfold maxAlloc; lia].
Defined.

(** X7.  [New(size)] validates nothing itself: a negative size makes
    [make] panic.  Whenever [New(size)] returns a buffer, the size is
    not negative and the buffer has that capacity over zeroed storage
    of that length, is empty and not full, with [Length()] [0],
    [Free()] the whole capacity and [Bytes()] empty. *)
Theorem X7_New_gives_an_empty_buffer C :
  (C < 0 -> New C = Panic MakeLenOutOfRange) /\
  (forall rb,
     New C = Ok rb ->
     0 <= C /\ Capacity rb = C /\
     buf rb = repeat x00 (Z.to_nat C) /\ len (buf rb) = C /\
     r rb = 0 /\ w rb = 0 /\
     Length rb = 0 /\ Free rb = C /\
     IsEmpty rb = true /\ IsFull rb = false /\ Bytes rb = Ok []).
Proof.
  split.
  - intros HC. unfold New, make.
    destruct (Z.ltb_spec C 0); [reflexivity | lia].
  - intros rb E. unfold New, make in E.
    destruct (Z.ltb_spec C 0) as [? | HC]; simpl in E; [discriminate E |].
    destruct (maxAlloc <? C); simpl in E; [discriminate E |].
    injection E as <-. simpl.
    split; [exact HC |]. split; [reflexivity |]. split; [reflexivity |].
    split; [apply len_repeat; exact HC |]. repeat split.
Qed.

Lemma X7_witness :
  New (-1) = Panic MakeLenOutOfRange /\
  let rb := mkRingBuffer [x00; x00; x00] 3 0 0 false in
  0 <= 3 /\ Capacity rb = 3 /\
  buf rb = repeat x00 (Z.to_nat 3) /\ len (buf rb) = 3 /\
  r rb = 0 /\ w rb = 0 /\
  Length rb = 0 /\ Free rb = 3 /\
  IsEmpty rb = true /\ IsFull rb = false /\ Bytes rb = Ok [].
Proof.
  split.
  - apply (proj1 (X7_New_gives_an_empty_buffer (-1))). lia.
  - apply (proj2 (X7_New_gives_an_empty_buffer 3)
             (mkRingBuffer [x00; x00; x00] 3 0 0 false)).
    reflexivity.
Defined.

(** X8.  A buffer created with capacity [C > 0] behaves as a queue of
    at most [C] bytes: every sequence of operations runs to its end,
    and afterwards [Bytes()] is the queue obtained from the empty one
    by dropping from the front what each read took and appending what
    each write could fit, [Reset] emptying it; [Length()] is its
    length and [Free()] the room left up to [C]. *)
Theorem X8_bounded_queue C rb0 ops :
  0 < C -> New C = Ok rb0 ->
  exists rb,
    run ops rb0 = Ok rb /\
    Bytes rb = Ok (fifo_run C ops []) /\
    Length rb = len (fifo_run C ops []) /\
    Free rb = C - len (fifo_run C ops []).
Proof.
  intros HC E0. destruct (New_wf C rb0 HC E0) as [H0 Hs0].
  destruct (run_fifo ops rb0 H0) as (rb & E & H & Hs & Hu).
  rewrite (unread_New C rb0 HC E0), Hs0 in Hu.
  exists rb. split; [exact E |].
  split; [rewrite <- Hu; apply Bytes_closed; assumption |].
  rewrite <- Hu. rewrite len_unread by assumption.
  split; [reflexivity |].
  pose proof (Length_Free rb H). lia.
Qed.

Lemma X8_witness :
  exists rb,
    run sample_ops sample_rb0 = Ok rb /\
    Bytes rb = Ok (fifo_run 4 sample_ops []) /\
    Length rb = len (fifo_run 4 sample_ops []) /\
    Free rb = 4 - len (fifo_run 4 sample_ops []).
Proof.
  apply (X8_bounded_queue 4 sample_rb0 sample_ops).
  - lia.
  - reflexivity.
Defined.

(** X9.  In any state whatever, a [Read] or [ReadByte] that returns
    changes neither the storage bytes, nor the capacity, nor the write
    cursor: reading never erases or moves data. *)
Theorem X9_reads_leave_the_storage rb :
  (forall p rb' p' x,
      Read rb p = Ok (rb', p', x) ->
      buf rb' = buf rb /\ Capacity rb' = Capacity rb /\ w rb' = w rb) /\
  (forall rb' x,
      ReadByte rb = Ok (rb', x) ->
      buf rb' = buf rb /\ Capacity rb' = Capacity rb /\ w rb' = w rb).
Proof.
  split.
  - intros p rb' p' x E. apply (Read_frame rb p rb' p' x E).
  - intros rb' x E. apply (ReadByte_frame rb rb' x E).
Qed.

Lemma X9_witness :
  let rb1 := mkRingBuffer [x61; x62; x63; x64; x65] 5 1 2 false in
  let rb2 := mkRingBuffer [x61; x62; x63; x64; x65] 5 4 2 false in
  (buf rb1 = buf sample_wrapped /\ Capacity rb1 = Capacity sample_wrapped /\
   w rb1 = w sample_wrapped) /\
  (buf rb2 = buf sample_wrapped /\ Capacity rb2 = Capacity sample_wrapped /\
   w rb2 = w sample_wrapped).
Proof.
  split.
  - apply (proj1 (X9_reads_leave_the_storage sample_wrapped)
             [x00; x00; x00]
             (mkRingBuffer [x61; x62; x63; x64; x65] 5 1 2 false)
             [x64; x65; x61] (3, None)).
    reflexivity.
  - apply (proj2 (X9_reads_leave_the_storage sample_wrapped)
             (mkRingBuffer [x61; x62; x63; x64; x65] 5 4 2 false)
             (x64, None)).
    reflexivity.
Defined.

(** X10.  In any state whatever, a [Write], [WriteByte] or
    [WriteString] that returns changes neither the read cursor nor the
    capacity. *)
Theorem X10_writes_leave_the_read_cursor rb :
  (forall p rb' x,
      Write rb p = Ok (rb', x) ->
      r rb' = r rb /\ Capacity rb' = Capacity rb) /\
  (forall c rb' x,
      WriteByte rb c = Ok (rb', x) ->
      r rb' = r rb /\ Capacity rb' = Capacity rb) /\
  (forall s rb' x,
      WriteString rb s = Ok (rb', x) ->
      r rb' = r rb /\ Capacity rb' = Capacity rb).
Proof.
  split; [| split].
  - intros p rb' x E. destruct (Write_frame rb p rb' x E). split; assumption.
  - intros c rb' x E. destruct (WriteByte_frame rb c rb' x E). split; assumption.
  - intros s rb' x E. unfold WriteString in E.
    destruct (Write_frame rb _ rb' x E). split; assumption.
Qed.

Lemma X10_witness :
  let rb1 := mkRingBuffer [x61; x65; x66; x64] 4 3 3 true in
  r rb1 = r sample_rb1 /\ Capacity rb1 = Capacity sample_rb1.
Proof.
  apply (proj1 (X10_writes_leave_the_read_cursor sample_rb1)
           [x65; x66; x67]
           (mkRingBuffer [x61; x65; x66; x64] 4 3 3 true)
           (2, Some ErrFull)).
  reflexivity.
Defined.

(** X11.  In every state of a buffer of positive capacity, a [Write]
    of a payload that fits ([len(p) <= Free()]) is accepted in full
    without error, and a following [Read] into a destination as long
    as everything then unread returns, in order, the bytes that were
    unread before the write followed by the payload, and leaves the
    buffer empty. *)
Theorem X11_write_then_drain rb p dst :
  wf rb -> len p <= Free rb -> len dst = Length rb + len p ->
  exists rb1 rb2 old,
    Bytes rb = Ok old /\
    Write rb p = Ok (rb1, (len p, None)) /\
    Read rb1 dst = Ok (rb2, old ++ p, (len dst, None)) /\
    IsEmpty rb2 = true /\ Length rb2 = 0.
Proof.
  intros H Hp Hd. pose proof (len_nonneg p) as Hp0.
  pose proof (Length_nonneg rb H) as HL0.
  destruct (Write_general rb p H) as (rb1 & E1 & H1 & _ & HL1 & Hu1).
  replace (Z.min (len p) (Free rb)) with (len p) in * by lia.
  destruct (Z.ltb_spec (Free rb) (len p)) as [? | _]; [lia |].
  rewrite takeZ_all in Hu1.
  destruct (Read_general rb1 dst H1) as (rb2 & E2 & H2 & _ & HL2 & _).
  rewrite HL1, Hu1 in *.
  replace (Z.min (len dst) (Length rb + len p)) with (len dst) in * by lia.
  assert (Hlen : len (unread rb ++ p) = len dst)
    by (rewrite len_app, len_unread by assumption; lia).
  rewrite <- Hlen in E2 at 1 2. rewrite takeZ_all in E2.
  assert (Hdrop : dropZ (len (unread rb ++ p)) dst = []).
  { apply len_nil_inv. rewrite len_dropZ; lia. }
  rewrite Hdrop, app_nil_r in E2.
  assert (Herr : (0 <? len dst) && (Length rb + len p =? 0) = false).
  { destruct (Z.ltb_spec 0 (len dst)); [| reflexivity].
    destruct (Z.eqb_spec (Length rb + len p) 0); [lia | reflexivity]. }
  rewrite Herr in E2.
  exists rb1, rb2, (unread rb).
  split; [apply Bytes_closed; assumption |].
  split; [exact E1 |]. split; [exact E2 |].
  assert (HL : Length rb2 = 0) by lia.
  split; [| exact HL].
  rewrite <- (IsEmpty_Length rb2 H2), HL. reflexivity.
Qed.

Lemma X11_witness :
  let p := [x65; x66] in
  let dst := [x00; x00; x00; x00] in
  exists rb1 rb2 old,
    Bytes sample_rb1 = Ok old /\
    Write sample_rb1 p = Ok (rb1, (len p, None)) /\
    Read rb1 dst = Ok (rb2, old ++ p, (len dst, None)) /\
    IsEmpty rb2 = true /\ Length rb2 = 0.
Proof.
  apply (X11_write_then_drain sample_rb1 [x65; x66] [x00; x00; x00; x00]).
  - constructor; simpl; first [reflexivity | discriminate | unfold maxAlloc; lia].
  - unfold len. simpl. vm_compute. discriminate.
  - reflexivity.
Defined.

Lemma mod_ring_back j ww s :
  0 < s -> 0 <= j < s -> 0 <= ww < s ->
  (j - ww) mod s = ring s (j - ww + s).
Proof.
  intros Hs Hj Hw. unfold ring.
  rewrite <- (Z_mod_plus_full (j - ww) 1 s).
  replace (j - ww + 1 * s) with (j - ww + s) by lia.
  apply mod_ring; lia.
Qed.

(** X12.  In a state of a buffer of positive capacity that is not
    full, a [Write] of a non-empty payload stores byte [i] of the
    payload, for [i < n = min(len(p), Free())], at storage position
    [(writePos + i) mod Capacity()] and leaves every other storage byte
    as it was; the write cursor advances by [n] modulo the capacity,
    and the full flag is set exactly when [n == Free()]. *)
Theorem X12_Write_storage_and_cursor rb p :
  wf rb -> IsFull rb = false -> p <> [] ->
  let n := Z.min (len p) (Free rb) in
  exists rb' e,
    Write rb p = Ok (rb', (n, e)) /\
    w rb' = (w rb + n) mod Capacity rb /\
    IsFull rb' = (n =? Free rb) /\
    forall j, 0 <= j < Capacity rb ->
      nthZ (buf rb') j =
      if (j - w rb) mod Capacity rb <? n
      then nthZ p ((j - w rb) mod Capacity rb)
      else nthZ (buf rb) j.
Proof.
  intros H Hf Hp n. apply len_pos in Hp. unfold IsFull in Hf.
  destruct (Write_closed rb p H Hf Hp) as (b' & E & _ & Hnth).
  fold n in E, Hnth.
  assert (Hn : 0 < n <= size rb).
  { pose proof (Free_nonneg rb H). unfold n.
    destruct (notfull_cases rb H Hf) as [(? & _ & EF) | (? & _ & EF)];
      rewrite EF in *; destruct H; lia. }
  eexists. eexists. split; [exact E |]. unfold Capacity, IsFull. simpl.
  split; [| split; [reflexivity |]].
  - destruct H. rewrite mod_ring by lia. reflexivity.
  - intros j Hj. rewrite Hnth by assumption. cbv zeta.
    destruct H. rewrite mod_ring_back by lia. reflexivity.
Qed.

Lemma X12_witness :
  let p := [x65; x66; x67] in
  let n := Z.min (len p) (Free sample_wrapped) in
  exists rb' e,
    Write sample_wrapped p = Ok (rb', (n, e)) /\
    w rb' = (w sample_wrapped + n) mod Capacity sample_wrapped /\
    IsFull rb' = (n =? Free sample_wrapped) /\
    forall j, 0 <= j < Capacity sample_wrapped ->
      nthZ (buf rb') j =
      if (j - w sample_wrapped) mod Capacity sample_wrapped <? n
      then nthZ p ((j - w sample_wrapped) mod Capacity sample_wrapped)
      else nthZ (buf sample_wrapped) j.
Proof.
  apply (X12_Write_storage_and_cursor sample_wrapped [x65; x66; x67]).
  - constructor; simpl; first [reflexivity | discriminate | unfold maxAlloc; lia].
  - reflexivity.
  - discriminate.
Defined.

(** X13.  In every state of a buffer of positive capacity, a [Read]
    that has nothing to deliver (an empty destination, or no unread
    byte) returns the count [0] and leaves buffer and destination
    exactly as they were; a [Read] that delivers [n > 0] bytes advances
    the read cursor by [n] modulo the capacity and clears the full
    flag. *)
Theorem X13_Read_cursor rb p :
  wf rb ->
  (p = [] \/ Length rb = 0 -> exists e, Read rb p = Ok (rb, p, (0, e))) /\
  (p <> [] -> 0 < Length rb ->
   exists rb' p' n,
     Read rb p = Ok (rb', p', (n, None)) /\
     n = Z.min (len p) (Length rb) /\
     r rb' = (r rb + n) mod Capacity rb /\
     IsFull rb' = false).
Proof.
  intros H. split.
  - intros [-> | E0].
    + exists None. reflexivity.
    + destruct (Length_zero rb H E0) as [Hw Hf].
      destruct p as [| x p]; [exists None; reflexivity |].
      exists (Some ErrEmpty).
      apply Read_empty; [assumption | assumption | discriminate].
  - intros Hp HL. apply len_pos in Hp.
    destruct (Read_closed rb p H Hp HL) as (p' & E & _ & _).
    do 3 eexists. split; [exact E |]. split; [reflexivity |].
    unfold Capacity, IsFull. simpl. split; [| reflexivity].
    pose proof (Length_nonneg rb H). destruct H.
    rewrite mod_ring by lia. reflexivity.
Qed.

Lemma X13_witness :
  (exists e, Read sample_empty [x00] = Ok (sample_empty, [x00], (0, e))) /\
  (exists rb' p' n,
     Read sample_wrapped [x00; x00; x00] = Ok (rb', p', (n, None)) /\
     n = Z.min (len [x00; x00; x00]) (Length sample_wrapped) /\
     r rb' = (r sample_wrapped + n) mod Capacity sample_wrapped /\
     IsFull rb' = false).
Proof.
  assert (He : wf sample_empty)
    by (constructor; simpl;
        first [reflexivity | discriminate | unfold maxAlloc; lia]).
  assert (Hw : wf sample_wrapped)
    by (constructor; simpl;
        first [reflexivity | discriminate | unfold maxAlloc; lia]).
  split.
  - apply (proj1 (X13_Read_cursor sample_empty [x00] He)).
    right. reflexivity.
  - apply (proj2 (X13_Read_cursor sample_wrapped [x00; x00; x00] Hw)).
    + discriminate.
    + reflexivity.
Defined.

(* ================================================================= *)
(** ** [Bytes] over the heap *)

Lemma array_old (h : Ref.heap) x a :
  (a < List.length h)%nat -> Ref.array (h ++ [x]) a = Ref.array h a.
Proof. intros H. unfold Ref.array. apply app_nth1. exact H. Qed.

Lemma array_new (h : Ref.heap) x : Ref.array (h ++ [x]) (List.length h) = x.
Proof. unfold Ref.array. apply nth_middle. Qed.

Lemma set_array_new (h : Ref.heap) x y :
  Ref.set_array (h ++ [x]) (List.length h) y = h ++ [y].
Proof.
  unfold Ref.set_array.
  rewrite firstn_app, firstn_all, Nat.sub_diag.
  rewrite (skipn_all2 (n := S (List.length h)))
    by (rewrite length_app; simpl; lia).
  simpl. rewrite app_nil_r. reflexivity.
Qed.

Lemma set_array_other (h : Ref.heap) a b y :
  (a < List.length h)%nat -> a <> b ->
  Ref.array (Ref.set_array h a y) b = Ref.array h b.
Proof.
  intros Ha Hab. unfold Ref.set_array, Ref.array.
  destruct (Nat.lt_ge_cases b a) as [Hlt | Hge].
  - rewrite app_nth1 by (rewrite length_firstn; lia).
    rewrite nth_firstn.
    destruct (Nat.ltb_spec b a); [reflexivity | lia].
  - rewrite app_nth2 by (rewrite length_firstn; lia).
    rewrite length_firstn, Nat.min_l by lia.
    destruct (b - a)%nat as [| k] eqn:Ek; [lia |]. cbn [nth].
    rewrite nth_skipn. f_equal. lia.
Qed.

Lemma contents_old (h : Ref.heap) x s :
  (Ref.base s < List.length h)%nat ->
  Ref.contents (h ++ [x]) s = Ref.contents h s.
Proof. intros H. unfold Ref.contents. rewrite array_old by exact H. reflexivity. Qed.

Lemma alloc_ok (h : Ref.heap) n :
  0 <= n <= maxAlloc ->
  Ref.alloc h n =
  Ok (h ++ [repeat x00 (Z.to_nat n)], Ref.mkSlice (List.length h) 0 n n).
Proof. intros H. unfold Ref.alloc. rewrite make_ok by exact H. reflexivity. Qed.

Lemma reslice_ok s lo hi :
  0 <= lo -> lo <= hi -> hi <= Ref.scap s ->
  Ref.reslice s lo hi =
  Ok (Ref.mkSlice (Ref.base s) (Ref.off s + lo) (hi - lo) (Ref.scap s - lo)).
Proof.
  intros H1 H2 H3. unfold Ref.reslice.
  destruct (Z.leb_spec 0 lo); [| lia].
  destruct (Z.leb_spec lo hi); [| lia].
  destruct (Z.leb_spec hi (Ref.scap s)); [| lia]. reflexivity.
Qed.

Lemma blit_unfold x o data :
  0 <= o <= len x ->
  blit x o data =
  takeZ o x ++ takeZ (Z.min (len x - o) (len data)) data ++
  dropZ (o + Z.min (len x - o) (len data)) x.
Proof.
  intros H. pose proof (len_nonneg data). unfold blit, copy.
  rewrite len_dropZ by lia. rewrite dropZ_dropZ by lia. reflexivity.
Qed.

Lemma copy_new (h : Ref.heap) x o n src :
  0 <= o <= len x -> n = len x - o ->
  (Ref.base src < List.length h)%nat ->
  Ref.slen src = len (Ref.contents h src) ->
  Ref.copy (h ++ [x]) (Ref.mkSlice (List.length h) o n n) src =
  h ++ [blit x o (Ref.contents h src)].
Proof.
  intros Ho Hn Hb Hs. unfold Ref.copy. simpl.
  rewrite array_new, contents_old by exact Hb.
  rewrite set_array_new, blit_unfold by exact Ho.
  rewrite Hs, Hn. reflexivity.
Qed.

Lemma Bytes_unread rb : buffer_state rb -> Bytes rb = Ok (unread rb).
Proof.
  intros [H | Hz]; [apply Bytes_closed; exact H |].
  rewrite (zero_cap_inv rb Hz). destruct (isFull rb); reflexivity.
Qed.

Lemma view_buf (h : Ref.heap) rb :
  allocated h rb ->
  buf (view h rb) = Ref.array h (Ref.base (Ref.buf rb)).
Proof.
  intros (_ & Ho & Hl & _ & Ha). unfold view, Ref.contents. simpl.
  rewrite Ho, Hl, <- Ha. apply takeZ_all.
Qed.

Lemma contents_reslice (h : Ref.heap) rb lo hi :
  allocated h rb -> 0 <= lo -> lo <= hi -> hi <= Ref.size rb ->
  exists s,
    Ref.reslice (Ref.buf rb) lo hi = Ok s /\
    slice (buf (view h rb)) lo hi = Ok (Ref.contents h s) /\
    Ref.base s = Ref.base (Ref.buf rb) /\
    Ref.slen s = len (Ref.contents h s).
Proof.
  intros Ha Hlo Hhi Hs. pose proof (view_buf h rb Ha) as Hv.
  destruct Ha as (_ & Ho & Hl & Hc & Ha).
  rewrite reslice_ok by lia. eexists. split; [reflexivity |].
  rewrite Hv. rewrite slice_ok by lia.
  unfold Ref.contents. simpl. rewrite Ho. simpl.
  split; [reflexivity |]. split; [reflexivity |].
  fold (seg (Ref.array h (Ref.base (Ref.buf rb))) lo (hi - lo)).
  rewrite len_seg; lia.
Qed.

Lemma reslice_slen s lo hi s' :
  Ref.reslice s lo hi = Ok s' -> Ref.slen s' = hi - lo.
Proof.
  unfold Ref.reslice.
  destruct ((0 <=? lo) && (lo <=? hi) && (hi <=? Ref.scap s));
    [| discriminate].
  intros E. injection E as <-. reflexivity.
Qed.

Lemma Ref_Bytes_value (h : Ref.heap) rb :
  allocated h rb -> buffer_state (view h rb) ->
  exists l,
    Bytes (view h rb) = Ok l /\
    Ref.Bytes h rb =
      Ok (if IsEmpty (view h rb) then (h, None)
          else (h ++ [l],
                Some (Ref.mkSlice (List.length h) 0 (len l) (len l)))).
Proof.
  intros Ha Hst.
  assert (Hb : (Ref.base (Ref.buf rb) < List.length h)%nat) by apply Ha.
  assert (Hsl : Ref.slen (Ref.buf rb) = Ref.size rb) by apply Ha.
  assert (Hcase :
    (Ref.w rb = Ref.r rb /\ Ref.isFull rb = false) \/
    (Ref.w rb = Ref.r rb /\ Ref.isFull rb = true /\
     0 <= Ref.r rb <= Ref.size rb /\ Ref.size rb <= maxAlloc) \/
    (Ref.w rb <> Ref.r rb /\ Ref.isFull rb = false /\
     0 < Ref.size rb <= maxAlloc /\ 0 <= Ref.r rb < Ref.size rb /\
     0 <= Ref.w rb < Ref.size rb)).
  { destruct Hst as [H | Hz].
    - destruct H as [_ Hs Hr Hw Hf]. simpl in *.
      destruct (Ref.isFull rb) eqn:Ef.
      + specialize (Hf eq_refl). right. left. repeat split; lia.
      + destruct (Z.eq_dec (Ref.w rb) (Ref.r rb)); [left | right; right];
          repeat split; lia.
    - destruct Hz as (_ & Hs & Hr & Hw). simpl in *.
      destruct (Ref.isFull rb) eqn:Ef; [right; left | left];
        repeat split; unfold maxAlloc; lia. }
  pose proof maxAlloc_bound as HM.
  assert (Hlv : len (buf (view h rb)) = Ref.size rb)
    by (rewrite view_buf by exact Ha; apply Ha).
  unfold Bytes, Ref.Bytes, IsEmpty.
  change (w (view h rb)) with (Ref.w rb).
  change (r (view h rb)) with (Ref.r rb).
  change (size (view h rb)) with (Ref.size rb).
  change (isFull (view h rb)) with (Ref.isFull rb).
  destruct Hcase as [(Ew & Ef) | [(Ew & Ef & Hr & Hs) | (Nw & Ef & Hs & Hr & Hw)]];
    rewrite Ef.
  - rewrite Ew, Z.eqb_refl. exists []. split; reflexivity.
  - rewrite Ew, Z.eqb_refl. simpl negb. cbn [andb].
    rewrite make_ok, alloc_ok by lia. cbn [Go.bind].
    rewrite Hsl. unfold slice_from, slice_to. rewrite Hlv.
    destruct (contents_reslice h rb (Ref.r rb) (Ref.size rb) Ha)
      as (s1 & E1 & V1 & B1 & L1); [lia | lia | lia |].
    destruct (contents_reslice h rb 0 (Ref.r rb) Ha)
      as (s2 & E2 & V2 & B2 & L2); [lia | lia | lia |].
    assert (Hl1 : len (Ref.contents h s1) = Ref.size rb - Ref.r rb).
    { rewrite <- L1. apply reslice_slen in E1. lia. }
    rewrite E1, V1, E2, V2. cbn [Go.bind]. int_simpl.
    rewrite copy_blit, copy_at_ok by len_tac.
    rewrite reslice_ok by (simpl; lia). cbn [Go.bind]. simpl.
    rewrite copy_new by (rewrite ?len_repeat, ?B1; first [lia | assumption]).
    replace (Ref.size rb - (Ref.size rb - Ref.r rb)) with (Ref.r rb) by lia.
    rewrite (copy_new h _ (Ref.size rb - Ref.r rb))
      by (rewrite ?B2; first [assumption | len_tac]).
    eexists. split; [reflexivity |].
    repeat f_equal; len_tac.
  - destruct (Z.eqb_spec (Ref.w rb) (Ref.r rb)) as [? | _]; [contradiction |].
    rewrite andb_false_r, Z.gtb_ltb.
    destruct (Z.ltb_spec (Ref.r rb) (Ref.w rb)) as [Hlt | Hge].
    + int_simpl. rewrite make_ok, alloc_ok by lia. cbn [Go.bind].
      destruct (contents_reslice h rb (Ref.r rb) (Ref.w rb) Ha)
        as (s1 & E1 & V1 & B1 & L1); [lia | lia | lia |].
      rewrite E1, V1. cbn [Go.bind].
      rewrite copy_blit.
      rewrite copy_new by (rewrite ?len_repeat, ?B1; first [lia | assumption]).
      eexists. split; [reflexivity |].
      repeat f_equal; len_tac.
    + int_simpl. rewrite make_ok, alloc_ok by lia. cbn [Go.bind].
      destruct (Z.ltb_spec (Ref.r rb + (Ref.size rb - Ref.r rb + Ref.w rb))
                  (Ref.size rb)) as [? | _]; [lia |].
      destruct (contents_reslice h rb (Ref.r rb) (Ref.size rb) Ha)
        as (s1 & E1 & V1 & B1 & L1); [lia | lia | lia |].
      destruct (contents_reslice h rb 0
                  (Ref.size rb - Ref.r rb + Ref.w rb - (Ref.size rb - Ref.r rb))
                  Ha)
        as (s2 & E2 & V2 & B2 & L2); [lia | lia | lia |].
      assert (Hl1 : len (Ref.contents h s1) = Ref.size rb - Ref.r rb).
      { rewrite <- L1. apply reslice_slen in E1. lia. }
      rewrite E1, V1, E2, V2. cbn [Go.bind].
      rewrite copy_blit, copy_at_ok by len_tac.
      rewrite reslice_ok by (simpl; lia). cbn [Go.bind]. simpl.
      rewrite copy_new by (rewrite ?len_repeat, ?B1; first [lia | assumption]).
      rewrite (copy_new h _ (Ref.size rb - Ref.r rb))
        by (rewrite ?B2; first [assumption | len_tac]).
      eexists. split; [reflexivity |].
      repeat f_equal; len_tac.
Qed.

Lemma Bytes_IsEmpty rb : IsEmpty rb = true -> Bytes rb = Ok [].
Proof.
  unfold IsEmpty, Bytes. intros H. apply andb_prop in H as [Hf Hw].
  rewrite Hw. destruct (isFull rb); [discriminate Hf | reflexivity].
Qed.

Lemma view_old (h : Ref.heap) x rb :
  (Ref.base (Ref.buf rb) < List.length h)%nat ->
  view (h ++ [x]) rb = view h rb.
Proof. intros H. unfold view. rewrite contents_old by exact H. reflexivity. Qed.

Lemma allocated_old (h : Ref.heap) x rb :
  allocated h rb -> allocated (h ++ [x]) rb.
Proof.
  intros (Hb & Ho & Hl & Hc & Ha). unfold allocated.
  rewrite array_old by exact Hb. rewrite length_app. simpl.
  repeat split; first [assumption | lia].
Qed.

Lemma Ref_New_allocated (h : Ref.heap) C h' rb :
  Ref.New h C = Ok (h', rb) ->
  allocated h' rb /\ New C = Ok (view h' rb) /\
  (forall a, (a < List.length h)%nat -> Ref.array h' a = Ref.array h a).
Proof.
  unfold Ref.New, Ref.alloc, New, make.
  destruct (Z.ltb_spec C 0) as [? | HC]; simpl; [discriminate |].
  destruct (maxAlloc <? C); simpl; [discriminate |].
  intros E. injection E as <- <-.
  assert (Hl : len (repeat x00 (Z.to_nat C)) = C) by (apply len_repeat; lia).
  split; [| split].
  - unfold allocated. simpl. rewrite array_new, length_app. simpl.
    repeat split; first [assumption | lia].
  - unfold view, Ref.contents. simpl. rewrite array_new.
    change (dropZ 0 (repeat x00 (Z.to_nat C)))
      with (repeat x00 (Z.to_nat C)).
    replace (takeZ C (repeat x00 (Z.to_nat C)))
      with (repeat x00 (Z.to_nat C)); [reflexivity |].
    rewrite <- Hl at 2. symmetry. apply takeZ_all.
  - intros a Ha. apply array_old. exact Ha.
Qed.

Lemma Ref_Bytes_fresh (h : Ref.heap) rb :
  allocated h rb -> buffer_state (view h rb) ->
  exists h' s,
    Ref.Bytes h rb = Ok (h', s) /\
    Ref.contents_opt h' s = unread (view h rb) /\
    view h' rb = view h rb /\ allocated h' rb /\
    (forall a, (a < List.length h)%nat -> Ref.array h' a = Ref.array h a) /\
    (forall s0, s = Some s0 ->
       Ref.base s0 = List.length h /\ (Ref.base s0 < List.length h')%nat).
Proof.
  intros Ha Hst.
  destruct (Ref_Bytes_value h rb Ha Hst) as (l & El & E).
  pose proof (Bytes_unread (view h rb) Hst) as Eu.
  rewrite Eu in El. injection El as <-.
  assert (Hb : (Ref.base (Ref.buf rb) < List.length h)%nat) by apply Ha.
  destruct (IsEmpty (view h rb)) eqn:He.
  - exists h, None. split; [exact E |].
    rewrite (Bytes_IsEmpty _ He) in Eu.
    assert (Hu : unread (view h rb) = []) by congruence. rewrite Hu.
    split; [reflexivity |]. split; [reflexivity |]. split; [exact Ha |].
    split; [reflexivity |]. intros s0 Es. discriminate Es.
  - eexists. eexists. split; [exact E |]. split.
    + unfold Ref.contents_opt, Ref.contents. simpl.
      rewrite array_new. apply takeZ_all.
    + split; [apply view_old; exact Hb |].
      split; [apply allocated_old; exact Ha |].
      split; [intros a Hlt; apply array_old; exact Hlt |].
      intros s0 Es. injection Es as <-. simpl.
      rewrite length_app. simpl. split; [reflexivity | lia].
Qed.

(** C9 ([Bytes]).  In every buffer state, [Bytes()] returns exactly the
    unread bytes, oldest first, read across the wrap boundary: as many
    as [Length()], the [i]-th one being the stored byte at position
    [(readPos + i) mod capacity].  The slice returned is an independent
    copy: it is nil or lies in an array that did not exist before the
    call, no array that existed is written, and afterwards no store
    into the buffer's array changes the bytes returned and no store
    into the returned array changes the buffer.  The call changes
    nothing in the buffer, so any number of calls in a row leaves the
    same state, with the same [Length()] and [Free()], and a second
    call returns the same bytes without disturbing the first slice. *)
Theorem C9_bytes_snapshot (h : Ref.heap) rb k :
  allocated h rb -> buffer_state (view h rb) ->
  exists h' s,
    Ref.Bytes h rb = Ok (h', s) /\
    Bytes (view h rb) = Ok (Ref.contents_opt h' s) /\
    Ref.contents_opt h' s = unread (view h rb) /\
    len (unread (view h rb)) = Length (view h rb) /\
    (forall i, 0 <= i < Length (view h rb) ->
       nthZ (unread (view h rb)) i =
       nthZ (buf (view h rb))
         ((r (view h rb) + i) mod size (view h rb))) /\
    view h' rb = view h rb /\
    (forall a, (a < List.length h)%nat -> Ref.array h' a = Ref.array h a) /\
    (forall s0, s = Some s0 ->
       Ref.base s0 = List.length h /\
       Ref.base s0 <> Ref.base (Ref.buf rb) /\
       forall bs,
         Ref.contents (Ref.set_array h' (Ref.base (Ref.buf rb)) bs) s0 =
           Ref.contents h' s0 /\
         view (Ref.set_array h' (Ref.base s0) bs) rb = view h' rb) /\
    run (repeat OpBytes k) (view h rb) = Ok (view h rb) /\
    exists h'' s',
      Ref.Bytes h' rb = Ok (h'', s') /\
      Ref.contents_opt h'' s' = Ref.contents_opt h' s /\
      Ref.contents_opt h'' s = Ref.contents_opt h' s /\
      view h'' rb = view h rb.
Proof.
  intros Ha Hst.
  destruct (Ref_Bytes_fresh h rb Ha Hst)
    as (h' & s & E & Hc & Hv & Ha' & Hold & Hs).
  assert (Hb : (Ref.base (Ref.buf rb) < List.length h)%nat) by apply Ha.
  assert (Hb' : (Ref.base (Ref.buf rb) < List.length h')%nat) by apply Ha'.
  pose proof (Bytes_unread (view h rb) Hst) as Eu.
  exists h', s. split; [exact E |].
  split; [rewrite Hc; exact Eu |]. split; [exact Hc |].
  assert (Hval :
    len (unread (view h rb)) = Length (view h rb) /\
    (forall i, 0 <= i < Length (view h rb) ->
       nthZ (unread (view h rb)) i =
       nthZ (buf (view h rb))
         ((r (view h rb) + i) mod size (view h rb))) /\
    run (repeat OpBytes k) (view h rb) = Ok (view h rb)).
  { destruct Hst as [H | Hz].
    - split; [apply len_unread; exact H |]. split.
      + intros i Hi. rewrite nthZ_unread by assumption.
        pose proof (Length_nonneg _ H). destruct H.
        rewrite mod_ring by lia. reflexivity.
      + induction k as [| k IH]; simpl; [reflexivity |].
        rewrite Bytes_closed by assumption. simpl. exact IH.
    - destruct (zero_cap_occupancy _ Hz) as (_ & HL & _).
      split; [unfold unread; rewrite HL; reflexivity |]. split.
      + intros i Hi. lia.
      + induction k as [| k IH]; simpl; [reflexivity |].
        rewrite Eu. simpl. exact IH. }
  destruct Hval as (Hlen & Hnth & Hrun).
  split; [exact Hlen |]. split; [exact Hnth |].
  split; [exact Hv |]. split; [exact Hold |]. split.
  - intros s0 Es. destruct (Hs s0 Es) as [Hbase Hlt].
    split; [exact Hbase |].
    assert (Hne : Ref.base s0 <> Ref.base (Ref.buf rb)) by lia.
    split; [exact Hne |]. intros bs. split.
    + unfold Ref.contents.
      rewrite set_array_other by (first [assumption | congruence]).
      reflexivity.
    + unfold view, Ref.contents.
      rewrite set_array_other by assumption. reflexivity.
  - split; [exact Hrun |].
    assert (Hst' : buffer_state (view h' rb)) by (rewrite Hv; exact Hst).
    destruct (Ref_Bytes_fresh h' rb Ha' Hst')
      as (h'' & s' & E' & Hc' & Hv' & _ & Hold' & _).
    exists h'', s'. split; [exact E' |].
    split; [rewrite Hc', Hv, Hc; reflexivity |].
    split; [| rewrite Hv'; exact Hv].
    destruct s as [s0 |]; [| reflexivity].
    destruct (Hs s0 eq_refl) as [_ Hlt].
    unfold Ref.contents_opt, Ref.contents. rewrite Hold' by exact Hlt.
    reflexivity.
Qed.

Lemma C9_witness :
  allocated sample_heap sample_ref /\
  buffer_state (view sample_heap sample_ref) /\
  exists h' s,
    Ref.Bytes sample_heap sample_ref = Ok (h', s) /\
    Bytes sample_wrapped = Ok (Ref.contents_opt h' s) /\
    Ref.contents_opt h' s = [x64; x65; x61; x62] /\
    s = Some (Ref.mkSlice 1 0 4 4).
Proof.
  assert (Ha : allocated sample_heap sample_ref)
    by (unfold allocated; simpl; repeat split; first [reflexivity | lia]).
  assert (Hst : buffer_state (view sample_heap sample_ref))
    by (left; constructor; simpl;
        first [reflexivity | discriminate | unfold maxAlloc; lia]).
  split; [exact Ha |]. split; [exact Hst |].
  destruct (C9_bytes_snapshot sample_heap sample_ref 3 Ha Hst)
    as (h' & s & E & EB & Hc & _).
  exists h', s. split; [exact E |]. split; [exact EB |].
  split; [rewrite Hc; reflexivity |].
  assert (E0 : Ref.Bytes sample_heap sample_ref =
               Ok ([[x61; x62; x63; x64; x65]; [x64; x65; x61; x62]],
                   Some (Ref.mkSlice 1 0 4 4))) by reflexivity.
  rewrite E0 in E. injection E as _ <-. reflexivity.
Defined.
